(** * Acid engine core: rate counters, close requests, game swap, registry

    A shallow embedding of [Sources/Engine/Engine.hpp]: the per-second rate
    counter [ChangePerSecond], the [Engine] record with its inline member
    functions, and, for the parts of the engine whose bodies live in files
    that are not part of the excerpt ([ModuleHolder], [Delta], [Timer],
    [Engine::Run]), models written from the design document. *)

From Stdlib Require Import ZArith QArith Qround Lia List Bool.
From stdpp Require Import base option list gmap strings.

Local Open Scope Z_scope.

(** ** Machine numbers *)

(** [uint32_t]: an integer in [0, 2^32) whose arithmetic wraps around. *)
Definition uint32_t := Z.

Definition UINT32_MOD : Z := 2 ^ 32.

Definition u32_wrap (x : Z) : uint32_t := x mod UINT32_MOD.

(** [x++] on a [uint32_t]. *)
Definition u32_incr (x : uint32_t) : uint32_t := u32_wrap (x + 1).

Definition u32_ok (x : uint32_t) : Prop := 0 <= x < UINT32_MOD.

(** [float]: an IEEE-754 binary32 value.  Every finite binary32 value is a
    rational number, so the finite values are carried as [Q]; the two
    infinities and NaN are separate constructors.  The only float operations
    the engine header performs are [std::floor], [>] and assignment, all of
    which are exact on binary32, so no rounding has to be modelled for them.
    (Negative zero is identified with zero; it compares equal to it.) *)
Inductive float32 : Type :=
| F32 (q : Q)
| F32_pinf
| F32_ninf
| F32_nan.

(** The binary32 value [m * 2^-k]. *)
Definition f32_dyadic (m : Z) (k : positive) : float32 :=
  F32 (Qmake m (2 ^ k)%positive).

Definition f32_of_Z (z : Z) : float32 := F32 (inject_Z z).

(** [std::floor] on a float: the largest integral value not above the
    argument, returned as a float; infinities and NaN are returned as is. *)
Definition f32_floor (x : float32) : float32 :=
  match x with
  | F32 q => f32_of_Z (Qfloor q)
  | F32_pinf => F32_pinf
  | F32_ninf => F32_ninf
  | F32_nan => F32_nan
  end.

Definition Qlt_bool (a b : Q) : bool :=
  (Qnum a * QDen b <? Qnum b * QDen a)%Z.

(** [a > b] on floats: false as soon as one side is NaN. *)
Definition f32_gt (a b : float32) : bool :=
  match a, b with
  | F32_nan, _ | _, F32_nan => false
  | F32_ninf, _ => false
  | _, F32_pinf => false
  | F32_pinf, _ => true
  | F32 _, F32_ninf => true
  | F32 x, F32 y => Qlt_bool y x
  end.

(** [a <= b] on floats. *)
Definition f32_le (a b : float32) : bool :=
  match a, b with
  | F32_nan, _ | _, F32_nan => false
  | F32_ninf, _ => true
  | _, F32_pinf => true
  | F32_pinf, _ => false
  | F32 _, F32_ninf => false
  | F32 x, F32 y => Qle_bool x y
  end.

(** ** ChangePerSecond (Engine.hpp, lines 12-30) *)

Record ChangePerSecond : Type := mkChangePerSecond {
  m_valueTemp : uint32_t;
  m_value : uint32_t;
  m_valueTime : float32
}.

(** The three statements of [Update], each as a state transformer. *)
Definition cps_count (c : ChangePerSecond) : ChangePerSecond :=
  mkChangePerSecond (u32_incr (m_valueTemp c)) (m_value c) (m_valueTime c).

Definition cps_publish (time : float32) (c : ChangePerSecond) : ChangePerSecond :=
  if f32_gt (f32_floor time) (f32_floor (m_valueTime c))
  then mkChangePerSecond 0 (m_valueTemp c) (m_valueTime c)
  else c.

Definition cps_stamp (time : float32) (c : ChangePerSecond) : ChangePerSecond :=
  mkChangePerSecond (m_valueTemp c) (m_value c) time.

(** [void ChangePerSecond::Update(const float &time)]. *)
Definition Update (time : float32) (c : ChangePerSecond) : ChangePerSecond :=
  cps_stamp time (cps_publish time (cps_count c)).

(** A counter with every member zero. *)
Definition cps_zero : ChangePerSecond := mkChangePerSecond 0 0 (f32_of_Z 0).

(** The counter after a series of [Update] calls, oldest first. *)
Definition UpdateMany (times : list float32) (c : ChangePerSecond) : ChangePerSecond :=
  fold_left (fun acc t => Update t acc) times c.

(** The binary32 values nearest to 0.1, 0.9, 1.2, 1.8 and 2.05. *)
Definition t_0_1 : float32 := f32_dyadic 13421773 27.
Definition t_0_9 : float32 := f32_dyadic 7549747 23.
Definition t_1_2 : float32 := f32_dyadic 5033165 22.
Definition t_1_8 : float32 := f32_dyadic 7549747 22.
Definition t_2_05 : float32 := f32_dyadic 8598323 22.

(** The exact decimal values, for comparison. *)
Definition decimal_times : list float32 :=
  [F32 (1 # 10); F32 (9 # 10); F32 (12 # 10); F32 (18 # 10); F32 (205 # 100)].

(** No time of the series enters a later whole second than the timestamp
    stored just before it is fed. *)
Fixpoint no_crossing (last : float32) (times : list float32) : bool :=
  match times with
  | [] => true
  | t :: rest => f32_le (f32_floor t) (f32_floor last) && no_crossing t rest
  end.

(** ** Collaborators whose headers are outside the excerpt *)

(** Modelled from the spec: [Maths/Time.hpp] is missing.  A [Time] is a
    duration since the process epoch; it is kept as a rational number of
    seconds. *)
Definition Time : Type := Q.

(** [Time::AsSeconds], the float handed to the rate counters. *)
Definition AsSeconds (t : Time) : float32 := F32 t.

(** Modelled from the spec: [Maths/Delta.hpp] is missing.  A delta
    accumulator remembers the time of the last sample and the elapsed time
    measured by that sample. *)
Record Delta : Type := mkDelta {
  d_lastSample : Time;
  d_change : Time
}.

(** Modelled from the spec: [Delta]'s sampling is missing.  [Sample] measures
    [now - lastSample] and then moves the sample point to [now]. *)
Definition Sample (now : Time) (d : Delta) : Delta :=
  mkDelta now (now - d_lastSample d)%Q.

Definition GetChange (d : Delta) : Time := d_change d.

(** Modelled from the spec: [Maths/Timer.hpp] is missing.  An interval timer
    holds a reference point and an interval. *)
Record Timer : Type := mkTimer {
  t_reference : Time;
  t_interval : Time
}.

(** Modelled from the spec: [Timer]'s query is missing.  [Elapsed] fires and
    resets the reference point to [now] only when [now - reference >=
    interval]; otherwise it leaves the timer untouched. *)
Definition Elapsed (now : Time) (t : Timer) : bool * Timer :=
  if Qle_bool (t_interval t) (now - t_reference t)%Q
  then (true, mkTimer now (t_interval t))
  else (false, t).

(** Modelled from the spec: [Module::Stage] is missing.  The execution
    buckets, in their enumerated order. *)
Inductive Stage : Type :=
| Always
| PreUpdate
| UpdateNormal
| PostUpdate
| Render.

#[global] Instance Stage_eq_dec : EqDecision Stage.
Proof. solve_decision. Defined.

(** The type identity of a module class (the template argument [T]). *)
Definition TypeId : Type := nat.

(** A module instance on the heap, named by its handle. *)
Definition ModuleInst : Type := nat.

(** A [Game] instance on the heap, named by its handle; a [Game *] is an
    optional handle, [None] being [nullptr]. *)
Definition Game : Type := nat.

(** What the outside world can observe of a run, oldest first. *)
Inductive event : Type :=
| EvGameDestroyed (g : Game)
| EvGameUpdate (g : Game)
| EvModuleDestroyed (inst : ModuleInst)
| EvModuleUpdate (ty : TypeId)
| EvModuleRender (ty : TypeId)
| EvSleep (d : Time).

(** ** Module registry *)

(** Modelled from the spec: [ModuleHolder.hpp] is missing.  The registry is
    a mapping from type identity to (stage, instance) together with, for
    each stage, the ordered sequence of the type identities registered in
    it.  The order of registration across stages is kept as well, since the
    registry is torn down in the reverse of it. *)
Record ModuleHolder : Type := mkModuleHolder {
  mh_modules : gmap TypeId (Stage * ModuleInst);
  mh_stages : Stage -> list TypeId;
  mh_order : list TypeId
}.

Inductive AddOutcome : Type :=
| Added
| Conflict.

Definition stage_append (s : Stage) (ty : TypeId) (f : Stage -> list TypeId)
  : Stage -> list TypeId :=
  fun s' => if decide (s' = s) then f s' ++ [ty] else f s'.

Definition stage_remove (ty : TypeId) (f : Stage -> list TypeId)
  : Stage -> list TypeId :=
  fun s' => filter (fun ty' => ty' <> ty) (f s').

(** Modelled from the spec: [ModuleHolder::Has] is missing. *)
Definition Has (ty : TypeId) (r : ModuleHolder) : bool :=
  bool_decide (is_Some (mh_modules r !! ty)).

(** Modelled from the spec: [ModuleHolder::Get] is missing.  An absent type
    yields the null result. *)
Definition Get (ty : TypeId) (r : ModuleHolder) : option ModuleInst :=
  snd <$> mh_modules r !! ty.

(** Modelled from the spec: [ModuleHolder::Add] is missing.  Registers the
    instance under its type identity and stage and appends it to the stage's
    sequence; when the type identity is already registered the registration
    is rejected and a conflict is reported. *)
Definition Add (ty : TypeId) (stage : Stage) (inst : ModuleInst)
    (r : ModuleHolder) : AddOutcome * ModuleHolder :=
  match mh_modules r !! ty with
  | Some _ => (Conflict, r)
  | None =>
      (Added,
       mkModuleHolder (<[ty := (stage, inst)]> (mh_modules r))
                      (stage_append stage ty (mh_stages r))
                      (mh_order r ++ [ty]))
  end.

(** Modelled from the spec: [ModuleHolder::Remove] is missing.  Unregisters
    the module if present, handing back the instance to destroy; a no-op
    when absent. *)
Definition Remove (ty : TypeId) (r : ModuleHolder)
  : option ModuleInst * ModuleHolder :=
  match mh_modules r !! ty with
  | Some (_, inst) =>
      (Some inst,
       mkModuleHolder (delete ty (mh_modules r)) (stage_remove ty (mh_stages r))
                      (filter (fun ty' => ty' <> ty) (mh_order r)))
  | None => (None, r)
  end.

(** The stages swept by the update phase, in ascending order. *)
Definition update_stages : list Stage :=
  [Always; PreUpdate; UpdateNormal; PostUpdate].

(** Modelled from the spec: the traversals are missing.  The visiting order
    of [ForEachInStage], and of [ForEachInStageOrder] over the given stages:
    ascending stage order, registration order within a stage. *)
Definition ForEachInStage (s : Stage) (r : ModuleHolder) : list TypeId :=
  mh_stages r s.

Definition ForEachInStageOrder (stages : list Stage) (r : ModuleHolder)
  : list TypeId :=
  concat (map (fun s => ForEachInStage s r) stages).

(** ** Engine (Engine.hpp, lines 35-210) *)

Record Engine : Type := mkEngine {
  m_modules : ModuleHolder;
  m_game : option Game;
  m_argv0 : string;
  m_timeOffset : Time;
  m_fpsLimit : float32;
  m_running : bool;
  m_deltaUpdate : Delta;
  m_deltaRender : Delta;
  m_timerUpdate : Timer;
  m_timerRender : Timer;
  m_ups : ChangePerSecond;
  m_fps : ChangePerSecond
}.

(** The engine together with the events observed so far. *)
Record World : Type := mkWorld {
  w_engine : Engine;
  w_log : list event
}.

Definition set_modules (m : ModuleHolder) (e : Engine) : Engine :=
  mkEngine m (m_game e) (m_argv0 e) (m_timeOffset e) (m_fpsLimit e)
           (m_running e) (m_deltaUpdate e) (m_deltaRender e)
           (m_timerUpdate e) (m_timerRender e) (m_ups e) (m_fps e).

Definition set_game (g : option Game) (e : Engine) : Engine :=
  mkEngine (m_modules e) g (m_argv0 e) (m_timeOffset e) (m_fpsLimit e)
           (m_running e) (m_deltaUpdate e) (m_deltaRender e)
           (m_timerUpdate e) (m_timerRender e) (m_ups e) (m_fps e).

Definition set_running (b : bool) (e : Engine) : Engine :=
  mkEngine (m_modules e) (m_game e) (m_argv0 e) (m_timeOffset e) (m_fpsLimit e)
           b (m_deltaUpdate e) (m_deltaRender e)
           (m_timerUpdate e) (m_timerRender e) (m_ups e) (m_fps e).

Definition set_deltaUpdate (d : Delta) (e : Engine) : Engine :=
  mkEngine (m_modules e) (m_game e) (m_argv0 e) (m_timeOffset e) (m_fpsLimit e)
           (m_running e) d (m_deltaRender e)
           (m_timerUpdate e) (m_timerRender e) (m_ups e) (m_fps e).

Definition set_deltaRender (d : Delta) (e : Engine) : Engine :=
  mkEngine (m_modules e) (m_game e) (m_argv0 e) (m_timeOffset e) (m_fpsLimit e)
           (m_running e) (m_deltaUpdate e) d
           (m_timerUpdate e) (m_timerRender e) (m_ups e) (m_fps e).

Definition set_timerUpdate (t : Timer) (e : Engine) : Engine :=
  mkEngine (m_modules e) (m_game e) (m_argv0 e) (m_timeOffset e) (m_fpsLimit e)
           (m_running e) (m_deltaUpdate e) (m_deltaRender e)
           t (m_timerRender e) (m_ups e) (m_fps e).

Definition set_ups (c : ChangePerSecond) (e : Engine) : Engine :=
  mkEngine (m_modules e) (m_game e) (m_argv0 e) (m_timeOffset e) (m_fpsLimit e)
           (m_running e) (m_deltaUpdate e) (m_deltaRender e)
           (m_timerUpdate e) (m_timerRender e) c (m_fps e).

Definition set_fps (c : ChangePerSecond) (e : Engine) : Engine :=
  mkEngine (m_modules e) (m_game e) (m_argv0 e) (m_timeOffset e) (m_fpsLimit e)
           (m_running e) (m_deltaUpdate e) (m_deltaRender e)
           (m_timerUpdate e) (m_timerRender e) (m_ups e) c.

Definition log_events (evs : list event) (w : World) : World :=
  mkWorld (w_engine w) (w_log w ++ evs).

Definition on_engine (f : Engine -> Engine) (w : World) : World :=
  mkWorld (f (w_engine w)) (w_log w).

(** [bool HasModule<T>() const]. *)
Definition HasModule (ty : TypeId) (e : Engine) : bool := Has ty (m_modules e).

(** [T *GetModule<T>() const]. *)
Definition GetModule (ty : TypeId) (e : Engine) : option ModuleInst :=
  Get ty (m_modules e).

(** [void AddModule<T>(stage, args...)]: the instance is made first, then
    handed to the registry; an instance the registry did not take is
    destroyed when the temporary [unique_ptr] goes away.  The function is
    [void]: the registry's outcome is not passed on. *)
Definition AddModule (ty : TypeId) (stage : Stage) (inst : ModuleInst)
    (w : World) : World :=
  let '(outcome, m') := Add ty stage inst (m_modules (w_engine w)) in
  let w' := on_engine (set_modules m') w in
  match outcome with
  | Added => w'
  | Conflict => log_events [EvModuleDestroyed inst] w'
  end.

(** [void RemoveModule<T>()]. *)
Definition RemoveModule (ty : TypeId) (w : World) : World :=
  let '(gone, m') := Remove ty (m_modules (w_engine w)) in
  let w' := on_engine (set_modules m') w in
  match gone with
  | Some inst => log_events [EvModuleDestroyed inst] w'
  | None => w'
  end.

(** [Game *GetGame() const]. *)
Definition GetGame (e : Engine) : option Game := m_game e.

(** [void SetGame(Game *game) { m_game.reset(game); }]: [unique_ptr::reset]
    stores the new pointer and then deletes the instance held before, if
    there was one. *)
Definition SetGame (game : option Game) (w : World) : World :=
  let old := m_game (w_engine w) in
  let w' := on_engine (set_game game) w in
  match old with
  | Some g => log_events [EvGameDestroyed g] w'
  | None => w'
  end.

(** [const std::string &GetArgv0() const]. *)
Definition GetArgv0 (e : Engine) : string := m_argv0 e.

(** [const Time &GetTimeOffset() const]. *)
Definition GetTimeOffset (e : Engine) : Time := m_timeOffset e.

(** [void SetTimeOffset(const Time &timeOffset)]. *)
Definition SetTimeOffset (timeOffset : Time) (e : Engine) : Engine :=
  mkEngine (m_modules e) (m_game e) (m_argv0 e) timeOffset (m_fpsLimit e)
           (m_running e) (m_deltaUpdate e) (m_deltaRender e)
           (m_timerUpdate e) (m_timerRender e) (m_ups e) (m_fps e).

(** [const float &GetFpsLimit() const]. *)
Definition GetFpsLimit (e : Engine) : float32 := m_fpsLimit e.

(** [void SetFpsLimit(const float &fpsLimit)]. *)
Definition SetFpsLimit (fpsLimit : float32) (e : Engine) : Engine :=
  mkEngine (m_modules e) (m_game e) (m_argv0 e) (m_timeOffset e) fpsLimit
           (m_running e) (m_deltaUpdate e) (m_deltaRender e)
           (m_timerUpdate e) (m_timerRender e) (m_ups e) (m_fps e).

(** [const bool &IsRunning() const]. *)
Definition IsRunning (e : Engine) : bool := m_running e.

(** [const Time &GetDelta() const]. *)
Definition GetDelta (e : Engine) : Time := GetChange (m_deltaUpdate e).

(** [const Time &GetDeltaRender() const]. *)
Definition GetDeltaRender (e : Engine) : Time := GetChange (m_deltaRender e).

(** [const uint32_t &GetUps() const]. *)
Definition GetUps (e : Engine) : uint32_t := m_value (m_ups e).

(** [const uint32_t &GetFps() const]. *)
Definition GetFps (e : Engine) : uint32_t := m_value (m_fps e).

(** [void RequestClose(const bool &error) { m_running = false; }]. *)
Definition RequestClose (error : bool) (e : Engine) : Engine :=
  set_running false e.

(** ** The public calls user code can make *)

(** A call that module hooks, the game or the embedding application can
    make on the engine through the members defined in the header. *)
Inductive call : Type :=
| CAddModule (ty : TypeId) (stage : Stage) (inst : ModuleInst)
| CRemoveModule (ty : TypeId)
| CSetGame (game : option Game)
| CSetTimeOffset (timeOffset : Time)
| CSetFpsLimit (fpsLimit : float32)
| CRequestClose (error : bool)
| CConst.
(* [CConst] stands for any of the [const] members: HasModule, GetModule,
   GetGame, GetArgv0, GetTimeOffset, GetFpsLimit, IsRunning, GetDelta,
   GetDeltaRender, GetUps, GetFps. *)

Definition exec_call (c : call) (w : World) : World :=
  match c with
  | CAddModule ty stage inst => AddModule ty stage inst w
  | CRemoveModule ty => RemoveModule ty w
  | CSetGame game => SetGame game w
  | CSetTimeOffset t => on_engine (SetTimeOffset t) w
  | CSetFpsLimit f => on_engine (SetFpsLimit f) w
  | CRequestClose error => on_engine (RequestClose error) w
  | CConst => w
  end.

Definition exec_calls (cs : list call) (w : World) : World :=
  fold_left (fun acc c => exec_call c acc) cs w.

(** ** The loop *)

(** What the environment contributes to one iteration: the two clock
    readings and the engine calls made from inside each hook. *)
Record frame : Type := mkFrame {
  fr_clock_update : Time;
  fr_clock_render : Time;
  fr_module_update : TypeId -> list call;
  fr_game_update : Game -> list call;
  fr_module_render : TypeId -> list call
}.

(** Visit the given modules in order; each visit is observed and may make
    calls on the engine.  The sequence is the one snapshotted before the
    first visitor runs. *)
Definition visit (ev : TypeId -> event) (hook : TypeId -> list call)
    (tys : list TypeId) (w : World) : World :=
  fold_left (fun acc ty => exec_calls (hook ty) (log_events [ev ty] acc)) tys w.

(** Invoke the update hook of the game currently held, if any. *)
Definition game_update (hook : Game -> list call) (w : World) : World :=
  match m_game (w_engine w) with
  | Some g => exec_calls (hook g) (log_events [EvGameUpdate g] w)
  | None => w
  end.

(** Modelled from the spec: the throttle of [Engine::Run] is missing.  With
    a cap above zero and an inter-render interval shorter than [1/cap]
    seconds the loop suspends for the remaining time; otherwise it does not
    suspend. *)
Definition throttle_wait (cap : float32) (interval : Time) : option Time :=
  if f32_gt cap (f32_of_Z 0) then
    let budget := match cap with F32 q => (/ q)%Q | _ => 0%Q end in
    if Qlt_bool interval budget then Some (budget - interval)%Q else None
  else None.

Definition Throttle (w : World) : World :=
  match throttle_wait (GetFpsLimit (w_engine w)) (GetDeltaRender (w_engine w)) with
  | Some d => log_events [EvSleep d] w
  | None => w
  end.

(** Step 1: sample the update delta and feed the UPS counter. *)
Definition begin_update (now : Time) (e : Engine) : Engine :=
  set_ups (Update (AsSeconds now) (m_ups e))
          (set_deltaUpdate (Sample now (m_deltaUpdate e)) e).

(** Step 3: sample the render delta and feed the FPS counter. *)
Definition begin_render (now : Time) (e : Engine) : Engine :=
  set_fps (Update (AsSeconds now) (m_fps e))
          (set_deltaRender (Sample now (m_deltaRender e)) e).

(** Step 2: the update phase, skipped while the interval timer has not
    elapsed. *)
Definition update_phase (now : Time) (fr : frame) (w : World) : World :=
  let '(fired, tu) := Elapsed now (m_timerUpdate (w_engine w)) in
  let w' := on_engine (set_timerUpdate tu) w in
  if fired
  then game_update (fr_game_update fr)
         (visit EvModuleUpdate (fr_module_update fr)
                (ForEachInStageOrder update_stages (m_modules (w_engine w'))) w')
  else w'.

(** Step 5: the render sweep. *)
Definition render_phase (fr : frame) (w : World) : World :=
  visit EvModuleRender (fr_module_render fr)
        (ForEachInStage Render (m_modules (w_engine w))) w.

(** Modelled from the spec: the body of [Engine::Run] is missing.  One
    iteration of the loop, steps 1 to 5 of the design. *)
Definition iteration (fr : frame) (w : World) : World :=
  let now_u := (fr_clock_update fr + GetTimeOffset (w_engine w))%Q in
  let w1 := on_engine (begin_update now_u) w in
  let w2 := update_phase now_u fr w1 in
  let now_r := (fr_clock_render fr + GetTimeOffset (w_engine w2))%Q in
  let w3 := on_engine (begin_render now_r) w2 in
  let w4 := Throttle w3 in
  render_phase fr w4.

(** Modelled from the spec: the body of [Engine::Run] is missing.  The loop
    repeats the iteration while the running flag is set (step 6).  The
    result is the world in which the loop stopped, or, when the
    environment's script ends first, the world reached so far. *)
Fixpoint Run_loop (script : list frame) (w : World) : World :=
  match script with
  | [] => w
  | fr :: rest =>
      if IsRunning (w_engine w) then Run_loop rest (iteration fr w) else w
  end.

(** Modelled from the spec: the shutdown of [Engine::Run] is missing.  Once
    stopped, the engine tears down the game and then the registry, in the
    reverse of the order of registration. *)
Definition teardown (w : World) : World :=
  exec_calls
    (CSetGame None :: map CRemoveModule (rev (mh_order (m_modules (w_engine w)))))
    w.

Definition int32_t := Z.
Definition EXIT_SUCCESS : int32_t := 0.
Definition EXIT_FAILURE : int32_t := 1.

Section RunEntryPoint.

(** The status [Run] hands back once the loop has stopped.  The body is
    missing; whatever it computes, it can only read the engine and what
    happened during the run. *)
Variable exit_status : World -> int32_t.

(** Modelled from the spec: the body of [Engine::Run] is missing.  Once the
    loop has observed the running flag cleared, [Run] tears the engine down
    and returns with its status; [None] means the script ended with the loop
    still going. *)
Definition Run (script : list frame) (w : World) : option (int32_t * World) :=
  let w' := Run_loop script w in
  if IsRunning (w_engine w')
  then None
  else Some (exit_status (teardown w'), teardown w').

End RunEntryPoint.

(** What the embedding application does with an engine: single calls, and
    runs of the loop. *)
Inductive action : Type :=
| ACall (c : call)
| ARun (script : list frame).

(** The world a run leaves behind, whether or not it has returned. *)
Definition Run_world (script : list frame) (w : World) : World :=
  let w' := Run_loop script w in
  if IsRunning (w_engine w') then w' else teardown w'.

Definition exec_action (a : action) (w : World) : World :=
  match a with
  | ACall c => exec_call c w
  | ARun script => Run_world script w
  end.

Definition exec_actions (acts : list action) (w : World) : World :=
  fold_left (fun acc a => exec_action a acc) acts w.

(** ** The loop as a sequence of small steps *)

(** One primitive transition of the engine: a call made by user code (only
    calls satisfying [allowed]), a hook being entered, or one of the loop's
    own bookkeeping steps.  Everything the loop does is a sequence of these,
    so "at every later point" is reachability along them. *)
Inductive engine_step (allowed : call -> Prop) : World -> World -> Prop :=
| step_call (c : call) (w : World) :
    allowed c -> engine_step allowed w (exec_call c w)
| step_module_update (ty : TypeId) (w : World) :
    engine_step allowed w (log_events [EvModuleUpdate ty] w)
| step_module_render (ty : TypeId) (w : World) :
    engine_step allowed w (log_events [EvModuleRender ty] w)
| step_game_update (g : Game) (w : World) :
    GetGame (w_engine w) = Some g ->
    engine_step allowed w (log_events [EvGameUpdate g] w)
| step_begin_update (now : Time) (w : World) :
    engine_step allowed w (on_engine (begin_update now) w)
| step_timer (now : Time) (w : World) :
    engine_step allowed w
      (on_engine (set_timerUpdate (snd (Elapsed now (m_timerUpdate (w_engine w))))) w)
| step_begin_render (now : Time) (w : World) :
    engine_step allowed w (on_engine (begin_render now) w)
| step_throttle (w : World) :
    engine_step allowed w (Throttle w).

Definition any_call : call -> Prop := fun _ => True.

(** [later w w']: [w'] is a point of the execution at or after [w]. *)
Definition later : World -> World -> Prop := rtc (engine_step any_call).

(** All calls a frame's hooks can make satisfy [allowed]. *)
Definition frame_allowed (allowed : call -> Prop) (fr : frame) : Prop :=
  (forall ty, Forall allowed (fr_module_update fr ty)) /\
  (forall g, Forall allowed (fr_game_update fr g)) /\
  (forall ty, Forall allowed (fr_module_render fr ty)).

(** A call that does not switch the frame-rate cap on. *)
Definition keeps_cap_off (c : call) : Prop :=
  match c with
  | CSetFpsLimit f => f32_gt f (f32_of_Z 0) = false
  | _ => True
  end.

(** The cap is off at [w], and every suspension logged at [w] was already
    logged at [w0]. *)
Definition cap_off_since (w0 w : World) : Prop :=
  f32_gt (GetFpsLimit (w_engine w)) (f32_of_Z 0) = false /\
  (forall d, In (EvSleep d) (w_log w) -> In (EvSleep d) (w_log w0)).

(** The same frame with every hook's calls rewritten by [f]. *)
Definition frame_map (f : list call -> list call) (fr : frame) : frame :=
  mkFrame (fr_clock_update fr) (fr_clock_render fr)
          (fun ty => f (fr_module_update fr ty))
          (fun g => f (fr_game_update fr g))
          (fun ty => f (fr_module_render fr ty)).

(** A [RequestClose] made with the error flag [b] instead. *)
Definition call_with_error (b : bool) (c : call) : call :=
  match c with
  | CRequestClose _ => CRequestClose b
  | _ => c
  end.

(** A [RequestClose] immediately repeated, the second time with flag [b]. *)
Definition close_twice (b : bool) (c : call) : list call :=
  match c with
  | CRequestClose _ => [c; CRequestClose b]
  | _ => [c]
  end.

(** A frame in which no hook calls the engine, with both clock readings at
    [now]. *)
Definition quiet_frame (now : Time) : frame :=
  mkFrame now now (fun _ => []) (fun _ => []) (fun _ => []).

(** A frame in which the game's update hook makes the given calls. *)
Definition game_frame (now : Time) (cs : list call) : frame :=
  mkFrame now now (fun _ => []) (fun _ => cs) (fun _ => []).

Definition empty_registry : ModuleHolder :=
  mkModuleHolder ∅ (fun _ => []) [].

(** A freshly set up engine: running, no modules, the given game. *)
Definition fresh_engine (game : option Game) : Engine :=
  mkEngine empty_registry game "acid" 0%Q (f32_of_Z (-1)) true
           (mkDelta 0%Q 0%Q) (mkDelta 0%Q 0%Q)
           (mkTimer 0%Q 0%Q) (mkTimer 0%Q 0%Q)
           cps_zero cps_zero.

Definition fresh_world (game : option Game) : World :=
  mkWorld (fresh_engine game) [].

(** ** Further notions for the rate counter and the call interface *)

Definition Zsum (l : list Z) : Z := fold_right Z.add 0 l.

(** The values published in the course of a series of [Update] calls,
    oldest first: one entry for each call that took the publishing branch. *)
Fixpoint publishes (times : list float32) (c : ChangePerSecond) : list uint32_t :=
  match times with
  | [] => []
  | t :: rest =>
      if f32_gt (f32_floor t) (f32_floor (m_valueTime c))
      then m_value (Update t c) :: publishes rest (Update t c)
      else publishes rest (Update t c)
  end.

(** Two times in the same whole second (or both the same non-finite value). *)
Definition same_floor (a b : float32) : Prop := f32_floor a = f32_floor b.

Definition is_close (c : call) : bool :=
  match c with CRequestClose _ => true | _ => false end.

Definition is_set_fps (c : call) : bool :=
  match c with CSetFpsLimit _ => true | _ => false end.

Definition is_set_offset (c : call) : bool :=
  match c with CSetTimeOffset _ => true | _ => false end.

Definition is_set_game (c : call) : bool :=
  match c with CSetGame _ => true | _ => false end.

(** The instances among a list of [Game *] values. *)
Fixpoint handles (l : list (option Game)) : list Game :=
  match l with
  | [] => []
  | Some g :: rest => g :: handles rest
  | None :: rest => handles rest
  end.

(** The instances replaced by a chain of [SetGame] calls on an engine
    holding [held]: every pointer of the chain but the last one. *)
Definition replaced (held : option Game) (gs : list (option Game)) : list Game :=
  handles (removelast (held :: gs)).

(** The games whose destruction the log records, oldest first. *)
Fixpoint destroyed_games (log : list event) : list Game :=
  match log with
  | [] => []
  | EvGameDestroyed g :: rest => g :: destroyed_games rest
  | _ :: rest => destroyed_games rest
  end.

(** ** The hot-reload entry point (Tests/EditorTest/MainGame.cpp) *)

(** [enum cr_op] of the reload host: the two operations [cr_main] handles,
    and any other enumerator, which takes the [default] branch. *)
Inductive cr_op : Type :=
| CR_LOAD
| CR_UNLOAD
| CR_OTHER.

(** The keys the three buttons of [MainGame] are bound to. *)
Inductive Key : Type :=
| Key_F11
| Key_F9
| Key_Delete.

(** The argument printed by a [Log::Out] call. *)
Inductive log_arg : Type :=
| NoArg
| IntArg (i : Z)
| WorkingDirectoryArg.

(** The calls [MainGame.cpp] makes on collaborators outside the engine, as
    they are made.  A scene is named by the game whose constructor made it;
    [None] is [nullptr]. *)
Inductive ext_call : Type :=
| XLogOut (fmt : string) (arg : log_arg)
| XAddSearchPath (path : string)
| XOnButtonAdd (key : Key)
| XComponentAdd (name : string)
| XComponentRemove (name : string)
| XSetScene (scene : option Game)
| XClearChildren.

(** [MainGame::MainGame()], lines 55-105: the body's calls, in order. *)
Definition MainGame_ctor (g : Game) : list ext_call :=
  [XLogOut "[Game] Constructor\n" NoArg;
   XAddSearchPath "Resources/Engine";
   XLogOut "Working Directory: %s\n" WorkingDirectoryArg;
   XOnButtonAdd Key_F11;
   XOnButtonAdd Key_F9;
   XOnButtonAdd Key_Delete;
   XComponentAdd "PlayerFps";
   XSetScene (Some g)].

(** [MainGame::~MainGame()], lines 107-119. *)
Definition MainGame_dtor (g : Game) : list ext_call :=
  [XLogOut "[Game] Destructor\n" NoArg;
   XComponentRemove "PlayerFps";
   XSetScene None;
   XClearChildren].

(** The process around the engine: the engine's world, the calls made on
    the other collaborators, and the handle the next [new] yields. *)
Record Host : Type := mkHost {
  h_world : World;
  h_ext : list ext_call;
  h_next : Game
}.

Definition host_ext (calls : list ext_call) (h : Host) : Host :=
  mkHost (h_world h) (h_ext h ++ calls) (h_next h).

(** [new test::MainGame()]: a fresh instance, whose constructor runs. *)
Definition new_MainGame (h : Host) : Game * Host :=
  (h_next h,
   mkHost (h_world h) (h_ext h ++ MainGame_ctor (h_next h)) (S (h_next h))).

(** [Engine::Get()->SetGame(game)] in this program, where every game is a
    [MainGame]: the instance [SetGame] deletes runs [~MainGame]. *)
Definition host_SetGame (game : option Game) (h : Host) : Host :=
  mkHost (SetGame game (h_world h))
         (h_ext h ++ match GetGame (w_engine (h_world h)) with
                     | Some old => MainGame_dtor old
                     | None => []
                     end)
         (h_next h).

(** [int cr_main(struct cr_plugin *ctx, enum cr_op operation)], lines
    18-33; [version] is [ctx->version]. *)
Definition cr_main (version : Z) (operation : cr_op) (h : Host) : Z * Host :=
  match operation with
  | CR_LOAD =>
      let h1 := host_ext [XLogOut "[Guest] Operation load: %i\n" (IntArg version)] h in
      let '(g, h2) := new_MainGame h1 in
      (0, host_SetGame (Some g) h2)
  | CR_UNLOAD =>
      let h1 := host_ext [XLogOut "[Guest] Operation unload: %i\n" (IntArg version)] h in
      (0, host_SetGame None h1)
  | CR_OTHER => (0, h)
  end.

(** The host after a series of [cr_main] calls. *)
Definition cr_run (ops : list (Z * cr_op)) (h : Host) : Host :=
  fold_left (fun acc vo => snd (cr_main (fst vo) (snd vo) acc)) ops h.

(** The scene passed by the last [SetScene] call, if there was one. *)
Definition last_scene (calls : list ext_call) : option (option Game) :=
  fold_left (fun acc x => match x with XSetScene sc => Some sc | _ => acc end)
            calls None.

Definition host_game (h : Host) : option Game := GetGame (w_engine (h_world h)).

Definition host_destroyed (h : Host) : list Game :=
  destroyed_games (w_log (h_world h)).

(** Every instance is accounted for: none was destroyed twice, the one
    held has not been destroyed, and all of them came from [new]. *)
Definition lifetimes_ok (h : Host) : Prop :=
  NoDup (host_destroyed h) /\
  (forall g, In g (host_destroyed h) -> (g < h_next h)%nat) /\
  (forall g, host_game h = Some g ->
     (g < h_next h)%nat /\ ~ In g (host_destroyed h)).

Definition fresh_host : Host := mkHost (fresh_world None) [] 0%nat.

(** ** What the throttle of an iteration reads *)

(** A call that changes neither the cap nor the time offset. *)
Definition keeps_throttle_inputs (c : call) : Prop :=
  match c with
  | CSetFpsLimit _ => False
  | CSetTimeOffset _ => False
  | _ => True
  end.

(** The members the throttle of an iteration depends on. *)
Definition throttle_inputs (e : Engine) : float32 * Time * Delta :=
  (m_fpsLimit e, m_timeOffset e, m_deltaRender e).

(** The inter-render interval an iteration measures when its update phase
    leaves the time offset alone: the render clock reading, offset added,
    minus the previous render sample. *)
Definition render_interval (fr : frame) (w : World) : Time :=
  (fr_clock_render fr + m_timeOffset (w_engine w)
   - d_lastSample (m_deltaRender (w_engine w)))%Q.

(** * Properties *)

(** ** Numbers *)

Lemma u32_incr_no_wrap (x : uint32_t) :
  0 <= x < UINT32_MOD - 1 -> u32_incr x = x + 1.
Proof.
  intros Hx. unfold u32_incr, u32_wrap.
  apply Z.mod_small. lia.
Qed.

Lemma u32_incr_wraps : u32_incr (UINT32_MOD - 1) = 0.
Proof. reflexivity. Qed.

Lemma u32_incr_ok (x : uint32_t) : u32_ok (u32_incr x).
Proof.
  unfold u32_ok, u32_incr, u32_wrap.
  apply Z.mod_pos_bound. reflexivity.
Qed.

Lemma Qlt_bool_iff (a b : Q) : Qlt_bool a b = true <-> (a < b)%Q.
Proof. unfold Qlt_bool, Qlt. apply Z.ltb_lt. Qed.

Lemma Qle_bool_not_Qlt_bool (a b : Q) :
  Qle_bool a b = true -> Qlt_bool b a = false.
Proof.
  unfold Qle_bool, Qlt_bool. intros H.
  apply Z.leb_le in H. apply Z.ltb_ge. exact H.
Qed.

Lemma f32_gt_of_Z (a b : Z) : f32_gt (f32_of_Z a) (f32_of_Z b) = (b <? a).
Proof.
  unfold f32_gt, f32_of_Z, Qlt_bool, inject_Z. simpl.
  now rewrite !Z.mul_1_r.
Qed.

(** On finite times the test of [Update] compares the whole seconds. *)
Lemma f32_gt_floor_finite (a b : Q) :
  f32_gt (f32_floor (F32 a)) (f32_floor (F32 b)) = (Qfloor b <? Qfloor a).
Proof. apply f32_gt_of_Z. Qed.

Lemma f32_le_not_gt (a b : float32) : f32_le a b = true -> f32_gt a b = false.
Proof.
  destruct a as [x| | |], b as [y| | |]; simpl; try congruence.
  apply Qle_bool_not_Qlt_bool.
Qed.

(** On finite times "the same or an earlier whole second" is the order of
    the two whole seconds. *)
Lemma f32_le_floor_finite (a b : Q) :
  f32_le (f32_floor (F32 a)) (f32_floor (F32 b)) = (Qfloor a <=? Qfloor b).
Proof.
  unfold f32_le, f32_floor, f32_of_Z, Qle_bool, inject_Z. simpl.
  now rewrite !Z.mul_1_r.
Qed.

(** A NaN time never publishes: both comparisons with it are false. *)
Lemma f32_gt_nan_l (b : float32) : f32_gt (f32_floor F32_nan) b = false.
Proof. reflexivity. Qed.

(** ** Rate counter *)

Lemma Update_unfold (time : float32) (c : ChangePerSecond) :
  Update time c =
  if f32_gt (f32_floor time) (f32_floor (m_valueTime c))
  then mkChangePerSecond 0 (u32_incr (m_valueTemp c)) time
  else mkChangePerSecond (u32_incr (m_valueTemp c)) (m_value c) time.
Proof.
  unfold Update, cps_stamp, cps_publish, cps_count. simpl.
  destruct (f32_gt _ _); reflexivity.
Qed.

Lemma Update_keeps_u32 (time : float32) (c : ChangePerSecond) :
  u32_ok (m_value c) ->
  u32_ok (m_valueTemp (Update time c)) /\ u32_ok (m_value (Update time c)).
Proof.
  intros Hv. rewrite Update_unfold.
  destruct (f32_gt _ _); simpl; split;
    first [ apply u32_incr_ok | exact Hv | (unfold u32_ok, UINT32_MOD; lia) ].
Qed.

Lemma Update_time (time : float32) (c : ChangePerSecond) :
  m_valueTime (Update time c) = time.
Proof. rewrite Update_unfold. destruct (f32_gt _ _); reflexivity. Qed.

Lemma Update_value_kept (time : float32) (c : ChangePerSecond) :
  f32_gt (f32_floor time) (f32_floor (m_valueTime c)) = false ->
  m_value (Update time c) = m_value c.
Proof. intros H. rewrite Update_unfold, H. reflexivity. Qed.

Lemma UpdateMany_cons (t : float32) (rest : list float32) (c : ChangePerSecond) :
  UpdateMany (t :: rest) c = UpdateMany rest (Update t c).
Proof. reflexivity. Qed.

Lemma UpdateMany_value_kept (times : list float32) :
  forall c : ChangePerSecond,
  no_crossing (m_valueTime c) times = true ->
  m_value (UpdateMany times c) = m_value c.
Proof.
  induction times as [|t rest IH]; intros c Hno; [reflexivity|].
  simpl in Hno. apply andb_true_iff in Hno as [Ht Hrest].
  rewrite UpdateMany_cons, IH.
  - apply Update_value_kept. now apply f32_le_not_gt.
  - now rewrite Update_time.
Qed.

(** C3. Every call of [Update] counts one more on the tally (the [uint32_t]
    increment, which is [+ 1] below the top of the range); then, exactly when
    the floor of the supplied time is greater than the floor of the stored
    timestamp, the tally is published and reset to zero, and otherwise the
    published value is kept; in both cases the stored timestamp becomes the
    supplied time.  On finite times the test is the comparison of the two
    whole seconds. *)
Theorem Update_counts_publishes_stamps (time : float32) (c : ChangePerSecond) :
  m_valueTemp (cps_count c) = u32_incr (m_valueTemp c) /\
  (0 <= m_valueTemp c < UINT32_MOD - 1 ->
     m_valueTemp (cps_count c) = m_valueTemp c + 1) /\
  (f32_gt (f32_floor time) (f32_floor (m_valueTime c)) = true ->
     m_value (Update time c) = m_valueTemp (cps_count c) /\
     m_valueTemp (Update time c) = 0) /\
  (f32_gt (f32_floor time) (f32_floor (m_valueTime c)) = false ->
     m_value (Update time c) = m_value c /\
     m_valueTemp (Update time c) = m_valueTemp (cps_count c)) /\
  m_valueTime (Update time c) = time /\
  (forall a b : Q, time = F32 a -> m_valueTime c = F32 b ->
     (f32_gt (f32_floor time) (f32_floor (m_valueTime c)) = true <->
      Qfloor b < Qfloor a)).
Proof.
  rewrite Update_unfold.
  split; [reflexivity|].
  split; [intros Hx; simpl; now apply u32_incr_no_wrap|].
  split; [intros ->; split; reflexivity|].
  split; [intros ->; split; reflexivity|].
  split; [destruct (f32_gt _ _); reflexivity|].
  intros a b -> ->. rewrite f32_gt_floor_finite. apply Z.ltb_lt.
Qed.

Lemma Update_counts_publishes_stamps_witness :
  m_value (Update t_1_2 (mkChangePerSecond 2 0 t_0_9)) = 3 /\
  m_valueTemp (Update t_1_2 (mkChangePerSecond 2 0 t_0_9)) = 0 /\
  m_valueTime (Update t_1_2 (mkChangePerSecond 2 0 t_0_9)) = t_1_2.
Proof.
  destruct (Update_counts_publishes_stamps t_1_2 (mkChangePerSecond 2 0 t_0_9))
    as (_ & _ & Hpub & _ & Htime & _).
  destruct (Hpub eq_refl) as [Hv Ht].
  split; [exact Hv|]. split; [exact Ht|exact Htime].
Defined.

(** C10. An [Update] whose time lies in the same or an earlier whole second
    than the stored timestamp leaves the published value as it was, also as
    read through [GetUps] and [GetFps]; and so does any further series of
    updates none of which enters a later second than the timestamp stored
    just before it (repeats within one second, time going backwards). *)
Theorem Update_keeps_published_value (time : float32) (c : ChangePerSecond) :
  f32_le (f32_floor time) (f32_floor (m_valueTime c)) = true ->
  m_value (Update time c) = m_value c /\
  (forall e : Engine, m_ups e = c ->
     GetUps (set_ups (Update time c) e) = GetUps e) /\
  (forall e : Engine, m_fps e = c ->
     GetFps (set_fps (Update time c) e) = GetFps e) /\
  (forall rest : list float32, no_crossing time rest = true ->
     m_value (UpdateMany (time :: rest) c) = m_value c).
Proof.
  intros Hle.
  assert (Hv : m_value (Update time c) = m_value c).
  { apply Update_value_kept. now apply f32_le_not_gt. }
  split; [exact Hv|].
  split; [intros e <-; exact Hv|].
  split; [intros e <-; exact Hv|].
  intros rest Hrest. apply UpdateMany_value_kept.
  simpl. now rewrite Hle.
Qed.

Lemma Update_keeps_published_value_witness :
  m_value (Update t_0_9 (mkChangePerSecond 1 5 t_1_2)) = 5 /\
  m_value (UpdateMany [t_0_9; t_0_9; t_0_1] (mkChangePerSecond 1 5 t_1_2)) = 5.
Proof.
  destruct (Update_keeps_published_value t_0_9 (mkChangePerSecond 1 5 t_1_2) eq_refl)
    as (Hv & _ & _ & Hmany).
  split; [exact Hv|]. apply Hmany. reflexivity.
Defined.

(** C2, as the code has it. Fed at 0.1, 0.9, 1.2, 1.8 and 2.05 seconds from
    a zeroed counter, the counter publishes 3 at the 1.2 update (the update
    that crosses the boundary is counted before the test) and 2 at the 2.05
    update, with the tally at zero after each of the two. *)
Theorem rate_counter_publishes_3_then_2 :
  m_value (UpdateMany [t_0_1; t_0_9] cps_zero) = 0 /\
  m_value (UpdateMany [t_0_1; t_0_9; t_1_2] cps_zero) = 3 /\
  m_valueTemp (UpdateMany [t_0_1; t_0_9; t_1_2] cps_zero) = 0 /\
  m_value (UpdateMany [t_0_1; t_0_9; t_1_2; t_1_8] cps_zero) = 3 /\
  m_value (UpdateMany [t_0_1; t_0_9; t_1_2; t_1_8; t_2_05] cps_zero) = 2 /\
  m_valueTemp (UpdateMany [t_0_1; t_0_9; t_1_2; t_1_8; t_2_05] cps_zero) = 0.
Proof. vm_compute. repeat split. Qed.

(** The published value right after the 1.2 update is not 2. *)
Lemma rate_counter_first_publish_is_not_2 :
  m_value (UpdateMany [t_0_1; t_0_9; t_1_2] cps_zero) <> 2.
Proof. vm_compute. discriminate. Qed.

(** The exact decimal times behave like their binary32 neighbours. *)
Lemma decimal_times_publish_3_then_2 :
  m_value (UpdateMany (firstn 3 decimal_times) cps_zero) = 3 /\
  m_value (UpdateMany decimal_times cps_zero) = 2.
Proof. vm_compute. split; reflexivity. Qed.

(** ** Close requests *)

Lemma RequestClose_flag_unused (e : Engine) :
  RequestClose true e = RequestClose false e.
Proof. reflexivity. Qed.

Lemma RequestClose_twice (e1 e2 : bool) (e : Engine) :
  RequestClose e2 (RequestClose e1 e) = RequestClose e1 e.
Proof. reflexivity. Qed.

Lemma RequestClose_stopped (error : bool) (e : Engine) :
  IsRunning e = false -> RequestClose error e = e.
Proof.
  destruct e; unfold IsRunning, RequestClose, set_running; simpl.
  intros ->. reflexivity.
Qed.

Lemma exec_calls_app (cs1 cs2 : list call) (w : World) :
  exec_calls (cs1 ++ cs2) w = exec_calls cs2 (exec_calls cs1 w).
Proof. apply fold_left_app. Qed.

Lemma exec_calls_cons (c : call) (cs : list call) (w : World) :
  exec_calls (c :: cs) w = exec_calls cs (exec_call c w).
Proof. reflexivity. Qed.

Lemma exec_call_with_error (b : bool) (c : call) (w : World) :
  exec_call (call_with_error b c) w = exec_call c w.
Proof. destruct c; reflexivity. Qed.

Lemma exec_calls_with_error (b : bool) (cs : list call) :
  forall w, exec_calls (map (call_with_error b) cs) w = exec_calls cs w.
Proof.
  induction cs as [|c cs IH]; intros w; [reflexivity|].
  simpl map. rewrite !exec_calls_cons, exec_call_with_error. apply IH.
Qed.

Lemma exec_calls_close_twice (b : bool) (cs : list call) :
  forall w, exec_calls (flat_map (close_twice b) cs) w = exec_calls cs w.
Proof.
  induction cs as [|c cs IH]; intros w; [reflexivity|].
  simpl flat_map. rewrite exec_calls_app, IH, exec_calls_cons.
  f_equal. destruct c; reflexivity.
Qed.

(** The loop sees a hook only through the effect of its calls. *)
Section HookRewriting.

Variable f : list call -> list call.
Hypothesis f_same_effect : forall cs w, exec_calls (f cs) w = exec_calls cs w.

Lemma visit_rewritten (ev : TypeId -> event) (hook : TypeId -> list call)
    (tys : list TypeId) :
  forall w, visit ev (fun ty => f (hook ty)) tys w = visit ev hook tys w.
Proof.
  induction tys as [|ty tys IH]; intros w; [reflexivity|].
  unfold visit in *. simpl. rewrite f_same_effect. apply IH.
Qed.

Lemma game_update_rewritten (hook : Game -> list call) (w : World) :
  game_update (fun g => f (hook g)) w = game_update hook w.
Proof.
  unfold game_update. destruct (m_game (w_engine w)); [|reflexivity].
  apply f_same_effect.
Qed.

Lemma iteration_rewritten (fr : frame) (w : World) :
  iteration (frame_map f fr) w = iteration fr w.
Proof.
  unfold iteration, update_phase, render_phase, frame_map. simpl.
  destruct (Elapsed _ _) as [[|] tu]; simpl;
    rewrite ?visit_rewritten, ?game_update_rewritten; reflexivity.
Qed.

Lemma Run_loop_rewritten (script : list frame) :
  forall w, Run_loop (map (frame_map f) script) w = Run_loop script w.
Proof.
  induction script as [|fr rest IH]; intros w; [reflexivity|].
  simpl. destruct (IsRunning (w_engine w)); [|reflexivity].
  rewrite iteration_rewritten. apply IH.
Qed.

Lemma Run_rewritten (exit_status : World -> int32_t) (script : list frame)
    (w : World) :
  Run exit_status (map (frame_map f) script) w = Run exit_status script w.
Proof. unfold Run. rewrite Run_loop_rewritten. reflexivity. Qed.

End HookRewriting.

Lemma Run_loop_stopped (script : list frame) (w : World) :
  IsRunning (w_engine w) = false -> Run_loop script w = w.
Proof. intros H. destruct script; simpl; [reflexivity|]. now rewrite H. Qed.

(** Once the flag is cleared [Run] returns, whatever the script holds. *)
Lemma Run_stopped (exit_status : World -> int32_t) (script : list frame)
    (w : World) :
  IsRunning (w_engine w) = false ->
  Run exit_status script w = Some (exit_status (teardown w), teardown w).
Proof.
  intros H. unfold Run. rewrite (Run_loop_stopped script w H), H. reflexivity.
Qed.

(** C9. [RequestClose] clears the running flag and leaves every other
    member of the engine as it was, and the state it produces does not
    depend on its argument. *)
Theorem RequestClose_only_clears_running (error : bool) (e : Engine) :
  m_running (RequestClose error e) = false /\
  m_modules (RequestClose error e) = m_modules e /\
  m_game (RequestClose error e) = m_game e /\
  m_argv0 (RequestClose error e) = m_argv0 e /\
  m_timeOffset (RequestClose error e) = m_timeOffset e /\
  m_fpsLimit (RequestClose error e) = m_fpsLimit e /\
  m_deltaUpdate (RequestClose error e) = m_deltaUpdate e /\
  m_deltaRender (RequestClose error e) = m_deltaRender e /\
  m_timerUpdate (RequestClose error e) = m_timerUpdate e /\
  m_timerRender (RequestClose error e) = m_timerRender e /\
  m_ups (RequestClose error e) = m_ups e /\
  m_fps (RequestClose error e) = m_fps e /\
  RequestClose true e = RequestClose false e.
Proof. repeat split. Qed.

(** C4. A second [RequestClose], with whatever flag, changes nothing after
    a first one; a [RequestClose] on an engine whose loop has stopped
    changes nothing; [Run] entered after one or after two requests returns
    at once with the same result; and a run in which every request made
    from a hook is immediately repeated returns what the run with the
    single requests returns. *)
Theorem RequestClose_idempotent (e1 e2 : bool) (w : World) :
  RequestClose e2 (RequestClose e1 (w_engine w)) = RequestClose e1 (w_engine w) /\
  (IsRunning (w_engine w) = false -> RequestClose e2 (w_engine w) = w_engine w) /\
  (forall (exit_status : World -> int32_t) (script : list frame),
     Run exit_status script
         (exec_calls [CRequestClose e1; CRequestClose e2] w) =
     Run exit_status script (exec_calls [CRequestClose e1] w) /\
     Run exit_status script (exec_calls [CRequestClose e1] w) =
     Some (exit_status (teardown (exec_call (CRequestClose e1) w)),
           teardown (exec_call (CRequestClose e1) w))) /\
  (forall (exit_status : World -> int32_t) (script : list frame),
     Run exit_status (map (frame_map (flat_map (close_twice e2))) script) w =
     Run exit_status script w).
Proof.
  split; [apply RequestClose_twice|].
  split; [apply RequestClose_stopped|].
  split.
  - intros exit_status script. split; [reflexivity|].
    apply Run_stopped. reflexivity.
  - intros exit_status script. apply Run_rewritten.
    apply exec_calls_close_twice.
Qed.

Lemma RequestClose_idempotent_witness :
  IsRunning (RequestClose false (fresh_engine None)) = false /\
  RequestClose true (RequestClose false (fresh_engine None)) =
  RequestClose false (fresh_engine None).
Proof.
  split; [reflexivity|].
  apply (proj1 (proj2 (RequestClose_idempotent false true
           (mkWorld (RequestClose false (fresh_engine None)) [])))).
  reflexivity.
Defined.

(** C1, what the code does. [RequestClose] drops its argument, so the state
    after [RequestClose(true)] is the state after [RequestClose(false)];
    whatever status [Run] computes from the engine and the course of the
    run, it is the same for a run whose hooks pass [true] and for the run
    whose hooks pass [false]; in particular a run closed from the game's
    update hook returns one and the same status for both flags. *)
Theorem Run_status_ignores_error_flag (exit_status : World -> int32_t) :
  (forall e : Engine, RequestClose true e = RequestClose false e) /\
  (forall (b : bool) (script : list frame) (w : World),
     Run exit_status (map (frame_map (map (call_with_error b))) script) w =
     Run exit_status script w) /\
  (exists (st : int32_t) (w' : World),
     Run exit_status [game_frame 1%Q [CRequestClose true]]
         (fresh_world (Some 1%nat)) = Some (st, w') /\
     Run exit_status [game_frame 1%Q [CRequestClose false]]
         (fresh_world (Some 1%nat)) = Some (st, w')).
Proof.
  split; [intros e; reflexivity|].
  split.
  - intros b script w. apply Run_rewritten. apply exec_calls_with_error.
  - eexists _, _. split; reflexivity.
Qed.

(** No status function at all tells an error close from a clean one. *)
Lemma no_exit_status_tells_the_flag :
  ~ exists exit_status : World -> int32_t,
      (exists w', Run exit_status [game_frame 1%Q [CRequestClose true]]
                    (fresh_world (Some 1%nat)) = Some (EXIT_FAILURE, w')) /\
      (exists w', Run exit_status [game_frame 1%Q [CRequestClose false]]
                    (fresh_world (Some 1%nat)) = Some (EXIT_SUCCESS, w')).
Proof.
  intros (exit_status & [w1 H1] & [w2 H2]).
  vm_compute in H1, H2.
  injection H1 as Hs1 _. injection H2 as Hs2 _.
  rewrite Hs1 in Hs2. discriminate Hs2.
Qed.

(** ** The loop is made of small steps *)

Section Steps.

Variable allowed : call -> Prop.

Lemma exec_calls_steps (cs : list call) :
  forall w, Forall allowed cs -> rtc (engine_step allowed) w (exec_calls cs w).
Proof.
  induction cs as [|c cs IH]; intros w Hcs; [apply rtc_refl|].
  inversion Hcs as [|? ? Hc Hrest]; subst.
  rewrite exec_calls_cons.
  eapply rtc_l; [apply step_call, Hc|]. now apply IH.
Qed.

Lemma visit_steps (ev : TypeId -> event) (hook : TypeId -> list call)
    (tys : list TypeId) :
  (forall ty w, engine_step allowed w (log_events [ev ty] w)) ->
  (forall ty, Forall allowed (hook ty)) ->
  forall w, rtc (engine_step allowed) w (visit ev hook tys w).
Proof.
  intros Hev Hhook.
  induction tys as [|ty tys IH]; intros w; [apply rtc_refl|].
  unfold visit in *. simpl.
  eapply rtc_l; [apply Hev|].
  etrans; [apply exec_calls_steps, Hhook|]. apply IH.
Qed.

Lemma game_update_steps (hook : Game -> list call) (w : World) :
  (forall g, Forall allowed (hook g)) ->
  rtc (engine_step allowed) w (game_update hook w).
Proof.
  intros Hhook. unfold game_update.
  destruct (m_game (w_engine w)) as [g|] eqn:Hg; [|apply rtc_refl].
  eapply rtc_l; [apply step_game_update, Hg|].
  apply exec_calls_steps, Hhook.
Qed.

Lemma update_phase_steps (now : Time) (fr : frame) (w : World) :
  frame_allowed allowed fr ->
  rtc (engine_step allowed) w (update_phase now fr w).
Proof.
  intros (Hmod & Hgame & _). unfold update_phase.
  pose proof (step_timer allowed now w) as Htimer.
  destruct (Elapsed now (m_timerUpdate (w_engine w))) as [fired tu].
  simpl in Htimer.
  eapply rtc_l; [exact Htimer|].
  destruct fired; [|apply rtc_refl].
  etrans; [apply visit_steps; [apply step_module_update|exact Hmod]|].
  now apply game_update_steps.
Qed.

Lemma iteration_steps (fr : frame) (w : World) :
  frame_allowed allowed fr ->
  rtc (engine_step allowed) w (iteration fr w).
Proof.
  intros Hfr. unfold iteration, render_phase.
  eapply rtc_l; [apply step_begin_update|].
  etrans; [apply update_phase_steps, Hfr|].
  eapply rtc_l; [apply step_begin_render|].
  eapply rtc_l; [apply step_throttle|].
  apply visit_steps; [apply step_module_render|apply Hfr].
Qed.

Lemma Run_loop_steps (script : list frame) :
  forall w, Forall (frame_allowed allowed) script ->
  rtc (engine_step allowed) w (Run_loop script w).
Proof.
  induction script as [|fr rest IH]; intros w Hs; [apply rtc_refl|].
  inversion Hs as [|? ? Hfr Hrest]; subst. simpl.
  destruct (IsRunning (w_engine w)); [|apply rtc_refl].
  etrans; [apply iteration_steps, Hfr|]. now apply IH.
Qed.

(** No step sets the running flag. *)
Lemma engine_step_keeps_stopped (w w' : World) :
  engine_step allowed w w' ->
  IsRunning (w_engine w) = false -> IsRunning (w_engine w') = false.
Proof.
  intros Hstep Hw. destruct Hstep as [c w _| | | | | | |]; simpl; try exact Hw.
  - destruct c; simpl; try exact Hw; try reflexivity.
    + unfold AddModule. destruct (Add _ _ _ _) as [[|] m']; exact Hw.
    + unfold RemoveModule. destruct (Remove _ _) as [[inst|] m']; exact Hw.
    + unfold SetGame. destruct (m_game (w_engine w)); exact Hw.
  - unfold Throttle. destruct (throttle_wait _ _); exact Hw.
Qed.

Lemma steps_keep_stopped (w w' : World) :
  rtc (engine_step allowed) w w' ->
  IsRunning (w_engine w) = false -> IsRunning (w_engine w') = false.
Proof.
  induction 1 as [|w w1 w2 Hstep _ IH]; [trivial|].
  intros Hw. apply IH. eapply engine_step_keeps_stopped; eassumption.
Qed.

(** Every step only adds to the end of the log. *)
Lemma engine_step_log (w w' : World) :
  engine_step allowed w w' -> exists evs, w_log w' = w_log w ++ evs.
Proof.
  intros Hstep.
  destruct Hstep as [c w _| | | | | | |]; simpl;
    try (eexists; reflexivity); try (exists []; now rewrite app_nil_r).
  - destruct c; simpl; try (exists []; now rewrite app_nil_r).
    + unfold AddModule. destruct (Add _ _ _ _) as [[|] m']; simpl;
        [exists []; now rewrite app_nil_r|eexists; reflexivity].
    + unfold RemoveModule. destruct (Remove _ _) as [[inst|] m']; simpl;
        [eexists; reflexivity|exists []; now rewrite app_nil_r].
    + unfold SetGame. destruct (m_game (w_engine w)); simpl;
        [eexists; reflexivity|exists []; now rewrite app_nil_r].
  - unfold Throttle. destruct (throttle_wait _ _); simpl;
      [eexists; reflexivity|exists []; now rewrite app_nil_r].
Qed.

Lemma steps_log (w w' : World) :
  rtc (engine_step allowed) w w' -> exists evs, w_log w' = w_log w ++ evs.
Proof.
  induction 1 as [w|w w1 w2 Hstep _ [evs2 IH]].
  - exists []. now rewrite app_nil_r.
  - destruct (engine_step_log _ _ Hstep) as [evs1 H1].
    exists (evs1 ++ evs2). now rewrite IH, H1, app_assoc.
Qed.

End Steps.

Lemma every_call_allowed (cs : list call) : Forall any_call cs.
Proof. apply Forall_forall. intros; exact I. Qed.

Lemma every_frame_allowed (script : list frame) :
  Forall (frame_allowed any_call) script.
Proof.
  apply Forall_forall. intros fr _.
  repeat split; intros; apply Forall_forall; intros; exact I.
Qed.

Lemma exec_action_later (a : action) (w : World) : later w (exec_action a w).
Proof.
  destruct a as [c|script]; simpl.
  - apply rtc_once, step_call. exact I.
  - unfold Run_world.
    pose proof (Run_loop_steps any_call script w (every_frame_allowed script))
      as Hloop.
    destruct (IsRunning _); [exact Hloop|].
    etrans; [exact Hloop|]. apply exec_calls_steps, every_call_allowed.
Qed.

Lemma exec_actions_later (acts : list action) :
  forall w, later w (exec_actions acts w).
Proof.
  induction acts as [|a acts IH]; intros w; [apply rtc_refl|].
  unfold exec_actions in *. simpl.
  etrans; [apply exec_action_later|apply IH].
Qed.

Lemma exec_actions_app (acts1 acts2 : list action) (w : World) :
  exec_actions (acts1 ++ acts2) w = exec_actions acts2 (exec_actions acts1 w).
Proof. apply fold_left_app. Qed.

(** C5. The running flag is never set again: from a point at which
    [IsRunning] is false, it is false at every later point of the execution,
    whether that point lies inside a hook, inside an iteration of the loop
    or after any further sequence of calls and runs. *)
Theorem running_flag_never_set_again (w : World) :
  IsRunning (w_engine w) = false ->
  (forall w', later w w' -> IsRunning (w_engine w') = false) /\
  (forall acts : list action, IsRunning (w_engine (exec_actions acts w)) = false) /\
  (forall (cs : list call) (fr : frame) (script : list frame),
     IsRunning (w_engine (exec_calls cs w)) = false /\
     IsRunning (w_engine (iteration fr (exec_calls cs w))) = false /\
     IsRunning (w_engine (Run_loop script w)) = false).
Proof.
  intros Hw.
  assert (Hlater : forall w', later w w' -> IsRunning (w_engine w') = false).
  { intros w' Hw'. eapply steps_keep_stopped; eassumption. }
  split; [exact Hlater|].
  split; [intros acts; apply Hlater, exec_actions_later|].
  intros cs fr script.
  assert (Hcs : later w (exec_calls cs w)).
  { apply exec_calls_steps, Forall_forall. intros; exact I. }
  split; [now apply Hlater|].
  split.
  - apply Hlater. etrans; [exact Hcs|].
    apply iteration_steps.
    repeat split; intros; apply Forall_forall; intros; exact I.
  - apply Hlater, Run_loop_steps, every_frame_allowed.
Qed.

Lemma running_flag_never_set_again_witness :
  IsRunning
    (w_engine
       (exec_actions
          [ACall (CSetFpsLimit (f32_of_Z 60)); ARun [quiet_frame 1%Q];
           ACall (CSetGame (Some 2%nat))]
          (exec_call (CRequestClose false) (fresh_world (Some 1%nat))))) = false.
Proof.
  apply (running_flag_never_set_again
           (exec_call (CRequestClose false) (fresh_world (Some 1%nat)))).
  reflexivity.
Defined.

(** ** Replacing the game *)

Lemma SetGame_log (old : Game) (game : option Game) (w : World) :
  GetGame (w_engine w) = Some old ->
  w_log (SetGame game w) = w_log w ++ [EvGameDestroyed old].
Proof. unfold SetGame, GetGame. intros ->. reflexivity. Qed.

Lemma SetGame_game (game : option Game) (w : World) :
  GetGame (w_engine (SetGame game w)) = game.
Proof. unfold SetGame. destruct (m_game (w_engine w)); reflexivity. Qed.

(** An element that occurs in [a ++ b] but not in [a] occurs past [a]. *)
Lemma split_after_prefix {A : Type} (a b l1 l2 : list A) (x : A) :
  a ++ b = l1 ++ x :: l2 -> ~ In x a -> exists pre, l1 = a ++ pre.
Proof.
  revert l1. induction a as [|y a IH]; intros l1 Heq Hnot.
  - exists l1. reflexivity.
  - destruct l1 as [|z l1]; simpl in Heq.
    + injection Heq as Hy _. exfalso. apply Hnot. left. exact Hy.
    + injection Heq as Hy Hrest. subst z.
      destruct (IH l1 Hrest) as [pre Hpre].
      * intros Hin. apply Hnot. right. exact Hin.
      * exists pre. simpl. now rewrite Hpre.
Qed.

(** C6. [SetGame] on an engine holding [old] stores the new instance and
    has [old] destroyed before it returns.  At every later point of the
    execution the log continues the log at the call with the destruction of
    [old] first; so an update of the new instance by the loop, which had not
    been updated before it was installed, comes after that destruction. *)
Theorem SetGame_destroys_before_new_updates (old new : Game) (w : World) :
  GetGame (w_engine w) = Some old ->
  w_log (SetGame (Some new) w) = w_log w ++ [EvGameDestroyed old] /\
  GetGame (w_engine (SetGame (Some new) w)) = Some new /\
  (forall w', later (SetGame (Some new) w) w' ->
     exists evs, w_log w' = w_log w ++ EvGameDestroyed old :: evs) /\
  (forall w' l1 l2, later (SetGame (Some new) w) w' ->
     ~ In (EvGameUpdate new) (w_log w) ->
     w_log w' = l1 ++ EvGameUpdate new :: l2 ->
     In (EvGameDestroyed old) l1).
Proof.
  intros Hold.
  assert (Hext : forall w', later (SetGame (Some new) w) w' ->
            exists evs, w_log w' = w_log w ++ EvGameDestroyed old :: evs).
  { intros w' Hw'. destruct (steps_log _ _ _ Hw') as [evs Hevs].
    exists evs. rewrite Hevs, (SetGame_log old _ _ Hold), <- app_assoc.
    reflexivity. }
  split; [now apply SetGame_log|].
  split; [apply SetGame_game|].
  split; [exact Hext|].
  intros w' l1 l2 Hw' Hfresh Hsplit.
  destruct (Hext w' Hw') as [evs Hevs].
  rewrite Hevs in Hsplit.
  change (w_log w ++ EvGameDestroyed old :: evs)
    with (w_log w ++ [EvGameDestroyed old] ++ evs) in Hsplit.
  rewrite app_assoc in Hsplit.
  destruct (split_after_prefix _ _ _ _ _ Hsplit) as [pre ->].
  - intros Hin. apply in_app_or in Hin as [Hin|[Heq|[]]].
    + now apply Hfresh.
    + discriminate Heq.
  - apply in_or_app. left. apply in_or_app. right. left. reflexivity.
Qed.

Lemma SetGame_destroys_before_new_updates_witness :
  w_log (Run_loop [quiet_frame 1%Q]
           (SetGame (Some 7%nat) (fresh_world (Some 3%nat)))) =
    [EvGameDestroyed 3%nat] ++ EvGameUpdate 7%nat :: [] /\
  In (EvGameDestroyed 3%nat) [EvGameDestroyed 3%nat].
Proof.
  split; [reflexivity|].
  apply (proj2 (proj2 (proj2
           (SetGame_destroys_before_new_updates 3%nat 7%nat
              (fresh_world (Some 3%nat)) eq_refl)))
           (Run_loop [quiet_frame 1%Q]
              (SetGame (Some 7%nat) (fresh_world (Some 3%nat))))
           [EvGameDestroyed 3%nat] []).
  - apply Run_loop_steps, every_frame_allowed.
  - simpl. tauto.
  - reflexivity.
Defined.

(** ** Registry *)

Lemma set_modules_same (e : Engine) : set_modules (m_modules e) e = e.
Proof. destruct e; reflexivity. Qed.

Lemma Has_true (ty : TypeId) (r : ModuleHolder) :
  Has ty r = true <-> is_Some (mh_modules r !! ty).
Proof. unfold Has. apply bool_decide_eq_true. Qed.

Lemma Add_conflict (ty : TypeId) (stage : Stage) (inst : ModuleInst)
    (r : ModuleHolder) :
  Has ty r = true -> Add ty stage inst r = (Conflict, r).
Proof.
  intros H. apply Has_true in H as [x Hx]. unfold Add. now rewrite Hx.
Qed.

(** A type identity that is not registered yet is taken. *)
Lemma Add_fresh (ty : TypeId) (stage : Stage) (inst : ModuleInst)
    (r : ModuleHolder) :
  Has ty r = false ->
  fst (Add ty stage inst r) = Added /\
  Get ty (snd (Add ty stage inst r)) = Some inst /\
  ForEachInStage stage (snd (Add ty stage inst r)) =
    ForEachInStage stage r ++ [ty].
Proof.
  intros H. unfold Has in H. apply bool_decide_eq_false in H.
  unfold Add. destruct (mh_modules r !! ty) as [x|] eqn:Hx.
  - exfalso. apply H. now exists x.
  - simpl. split; [reflexivity|]. split.
    + unfold Get. simpl. now rewrite lookup_insert_eq.
    + unfold ForEachInStage, stage_append. simpl.
      now rewrite decide_True.
Qed.

(** C7. Adding a module whose type identity is already registered is
    rejected with a conflict and leaves the registry as it was: the mapping,
    the registered instance and every stage's sequence; the engine that
    forwards the call is left unchanged as well. *)
Theorem Add_registered_type_is_rejected (ty : TypeId) (stage : Stage)
    (inst : ModuleInst) (r : ModuleHolder) :
  Has ty r = true ->
  Add ty stage inst r = (Conflict, r) /\
  mh_modules (snd (Add ty stage inst r)) = mh_modules r /\
  Get ty (snd (Add ty stage inst r)) = Get ty r /\
  (forall s, ForEachInStage s (snd (Add ty stage inst r)) = ForEachInStage s r) /\
  (forall w, m_modules (w_engine w) = r ->
     w_engine (AddModule ty stage inst w) = w_engine w).
Proof.
  intros H. pose proof (Add_conflict ty stage inst r H) as Hadd.
  rewrite Hadd. simpl.
  repeat split.
  intros w <-. unfold AddModule. rewrite Hadd. simpl.
  apply set_modules_same.
Qed.

Lemma Add_registered_type_is_rejected_witness :
  Add 5%nat Render 11%nat (snd (Add 5%nat PreUpdate 10%nat empty_registry)) =
  (Conflict, snd (Add 5%nat PreUpdate 10%nat empty_registry)).
Proof.
  apply (Add_registered_type_is_rejected 5%nat Render 11%nat
           (snd (Add 5%nat PreUpdate 10%nat empty_registry))).
  vm_compute. reflexivity.
Defined.

(** ** Frame-rate cap *)

Lemma GetFpsLimit_SetFpsLimit (cap : float32) (e : Engine) :
  GetFpsLimit (SetFpsLimit cap e) = cap.
Proof. reflexivity. Qed.

Lemma throttle_wait_off (cap : float32) (interval : Time) :
  f32_gt cap (f32_of_Z 0) = false -> throttle_wait cap interval = None.
Proof. intros H. unfold throttle_wait. now rewrite H. Qed.

Lemma Throttle_off (w : World) :
  f32_gt (GetFpsLimit (w_engine w)) (f32_of_Z 0) = false -> Throttle w = w.
Proof. intros H. unfold Throttle. now rewrite throttle_wait_off. Qed.

Lemma throttle_wait_on (cap : float32) (interval d : Time) :
  throttle_wait cap interval = Some d ->
  f32_gt cap (f32_of_Z 0) = true /\ (0 < d)%Q /\
  (forall q, cap = F32 q -> (interval + d == / q)%Q).
Proof.
  unfold throttle_wait.
  destruct (f32_gt cap (f32_of_Z 0)); [|discriminate].
  destruct (Qlt_bool interval _) eqn:Hlt; [|discriminate].
  intros [= <-]. apply Qlt_bool_iff in Hlt.
  split; [reflexivity|]. split.
  - unfold Qminus. now apply (proj1 (Qlt_minus_iff _ _)).
  - intros q ->. ring.
Qed.

Lemma cap_off_log_other (w0 w : World) (ev : event) :
  (forall d, ev <> EvSleep d) ->
  cap_off_since w0 w -> cap_off_since w0 (log_events [ev] w).
Proof.
  intros Hev [Hcap Hlog]. split; [exact Hcap|].
  intros d Hin. simpl in Hin. apply in_app_or in Hin as [Hin|[Heq|[]]].
  - now apply Hlog.
  - exfalso. now apply (Hev d).
Qed.

Lemma cap_off_on_engine (w0 w : World) (f : Engine -> Engine) :
  GetFpsLimit (f (w_engine w)) = GetFpsLimit (w_engine w) ->
  cap_off_since w0 w -> cap_off_since w0 (on_engine f w).
Proof.
  intros Hf [Hcap Hlog]. split; [simpl; now rewrite Hf|exact Hlog].
Qed.

Lemma engine_step_cap_off (w0 w w' : World) :
  engine_step keeps_cap_off w w' -> cap_off_since w0 w -> cap_off_since w0 w'.
Proof.
  intros Hstep Hw.
  destruct Hstep as [c w Hc| | | | | | |];
    try (apply cap_off_log_other; [discriminate|exact Hw]);
    try (apply cap_off_on_engine; [reflexivity|exact Hw]).
  - destruct c; simpl in *;
      try (apply cap_off_on_engine; [reflexivity|exact Hw]); try exact Hw.
    + unfold AddModule. destruct (Add _ _ _ _) as [[|] m'].
      * apply cap_off_on_engine; [reflexivity|exact Hw].
      * apply cap_off_log_other; [discriminate|].
        apply cap_off_on_engine; [reflexivity|exact Hw].
    + unfold RemoveModule. destruct (Remove _ _) as [[inst|] m'].
      * apply cap_off_log_other; [discriminate|].
        apply cap_off_on_engine; [reflexivity|exact Hw].
      * apply cap_off_on_engine; [reflexivity|exact Hw].
    + unfold SetGame. destruct (m_game (w_engine w)).
      * apply cap_off_log_other; [discriminate|].
        apply cap_off_on_engine; [reflexivity|exact Hw].
      * apply cap_off_on_engine; [reflexivity|exact Hw].
    + destruct Hw as [_ Hlog]. split; [exact Hc|exact Hlog].
  - rewrite Throttle_off; [exact Hw|apply Hw].
Qed.

Lemma steps_cap_off (w0 w w' : World) :
  rtc (engine_step keeps_cap_off) w w' ->
  cap_off_since w0 w -> cap_off_since w0 w'.
Proof.
  induction 1 as [|w w1 w2 Hstep _ IH]; [trivial|].
  intros Hw. apply IH. eapply engine_step_cap_off; eassumption.
Qed.

(** * Further properties of the code *)

(** ** Rate counter: what a published value counts *)

Lemma u32_wrap_incr (x : Z) : u32_incr (u32_wrap x) = u32_wrap (x + 1).
Proof.
  unfold u32_incr, u32_wrap. apply Zplus_mod_idemp_l.
Qed.

Lemma Update_tally_wrapped (t : float32) (c : ChangePerSecond) :
  f32_gt (f32_floor t) (f32_floor (m_valueTime c)) = false ->
  m_valueTemp (Update t c) = u32_incr (m_valueTemp c).
Proof. intros H. rewrite Update_unfold, H. reflexivity. Qed.

Lemma u32_incr_wrap_eq (x : Z) : u32_wrap (u32_incr x) = u32_incr x.
Proof.
  unfold u32_incr, u32_wrap. apply Z.mod_mod. discriminate.
Qed.

Lemma UpdateMany_tally (times : list float32) :
  forall c : ChangePerSecond,
  no_crossing (m_valueTime c) times = true ->
  u32_wrap (m_valueTemp (UpdateMany times c)) =
  u32_wrap (m_valueTemp c + Z.of_nat (length times)).
Proof.
  induction times as [|t rest IH]; intros c Hno.
  - simpl. now rewrite Z.add_0_r.
  - simpl in Hno. apply andb_true_iff in Hno as [Ht Hrest].
    rewrite UpdateMany_cons, IH by now rewrite Update_time.
    rewrite Update_tally_wrapped by now apply f32_le_not_gt.
    unfold u32_incr, u32_wrap.
    rewrite Zplus_mod_idemp_l. f_equal.
    change (length (t :: rest)) with (S (length rest)). lia.
Qed.

(** X1. When a series of updates stays within the second of the stored
    timestamp and the next update enters a later second, that update
    publishes the tally before the series plus the number of updates made,
    itself included (as a [uint32_t]), and leaves the tally at zero. *)
Theorem publish_counts_updates_since_last (times : list float32) (t : float32)
    (c : ChangePerSecond) :
  no_crossing (m_valueTime c) times = true ->
  f32_gt (f32_floor t) (f32_floor (m_valueTime (UpdateMany times c))) = true ->
  m_value (Update t (UpdateMany times c)) =
    u32_wrap (m_valueTemp c + Z.of_nat (length times) + 1) /\
  m_valueTemp (Update t (UpdateMany times c)) = 0.
Proof.
  intros Hno Hcross. rewrite Update_unfold, Hcross. simpl.
  split; [|reflexivity].
  rewrite <- u32_wrap_incr, <- (UpdateMany_tally times c Hno), u32_wrap_incr.
  reflexivity.
Qed.

Lemma publish_counts_updates_since_last_witness :
  m_value (Update t_2_05 (UpdateMany [t_1_2; t_1_8; t_1_8] (mkChangePerSecond 0 7 t_1_2))) = 4.
Proof.
  apply (publish_counts_updates_since_last [t_1_2; t_1_8; t_1_8] t_2_05
           (mkChangePerSecond 0 7 t_1_2)); reflexivity.
Defined.

Lemma publishes_cons (t : float32) (rest : list float32) (c : ChangePerSecond) :
  publishes (t :: rest) c =
  if f32_gt (f32_floor t) (f32_floor (m_valueTime c))
  then m_value (Update t c) :: publishes rest (Update t c)
  else publishes rest (Update t c).
Proof. reflexivity. Qed.

Lemma UpdateMany_tally_bounds (times : list float32) :
  forall c : ChangePerSecond,
  0 <= m_valueTemp c ->
  m_valueTemp c + Z.of_nat (length times) < UINT32_MOD ->
  0 <= m_valueTemp (UpdateMany times c) /\
  Zsum (publishes times c) + m_valueTemp (UpdateMany times c) =
    m_valueTemp c + Z.of_nat (length times).
Proof.
  induction times as [|t rest IH]; intros c H0 Hlen.
  - simpl. lia.
  - change (length (t :: rest)) with (S (length rest)) in *.
    rewrite UpdateMany_cons, publishes_cons.
    assert (Hincr : u32_incr (m_valueTemp c) = m_valueTemp c + 1).
    { apply u32_incr_no_wrap. lia. }
    destruct (f32_gt (f32_floor t) (f32_floor (m_valueTime c))) eqn:Hx.
    + assert (Hv : m_value (Update t c) = m_valueTemp c + 1).
      { rewrite Update_unfold, Hx. exact Hincr. }
      assert (Ht : m_valueTemp (Update t c) = 0).
      { rewrite Update_unfold, Hx. reflexivity. }
      destruct (IH (Update t c)) as [Hpos Hsum]; [lia|lia|].
      split; [exact Hpos|].
      change (Zsum (m_value (Update t c) :: publishes rest (Update t c)))
        with (m_value (Update t c) + Zsum (publishes rest (Update t c))).
      lia.
    + assert (Ht : m_valueTemp (Update t c) = m_valueTemp c + 1).
      { rewrite Update_unfold, Hx. exact Hincr. }
      destruct (IH (Update t c)) as [Hpos Hsum]; [lia|lia|].
      split; [exact Hpos|]. lia.
Qed.

(** X2. No update is lost or counted twice: as long as the count stays
    below 2^32, the values published during a series of updates and the
    tally left at its end add up to the tally at its start plus the number
    of updates. *)
Theorem updates_are_conserved (times : list float32) (c : ChangePerSecond) :
  0 <= m_valueTemp c ->
  m_valueTemp c + Z.of_nat (length times) < UINT32_MOD ->
  Zsum (publishes times c) + m_valueTemp (UpdateMany times c) =
    m_valueTemp c + Z.of_nat (length times).
Proof. intros H0 Hlen. now apply UpdateMany_tally_bounds. Qed.

Lemma updates_are_conserved_witness :
  Zsum (publishes [t_0_1; t_0_9; t_1_2; t_1_8; t_2_05; t_2_05] cps_zero) +
  m_valueTemp (UpdateMany [t_0_1; t_0_9; t_1_2; t_1_8; t_2_05; t_2_05] cps_zero) = 6.
Proof.
  apply (updates_are_conserved [t_0_1; t_0_9; t_1_2; t_1_8; t_2_05; t_2_05] cps_zero).
  - vm_compute. discriminate.
  - vm_compute. reflexivity.
Defined.

Lemma Update_same_floor (t t' : float32) (c c' : ChangePerSecond) :
  same_floor t t' ->
  same_floor (m_valueTime c) (m_valueTime c') ->
  m_valueTemp c = m_valueTemp c' ->
  m_value c = m_value c' ->
  m_valueTemp (Update t c) = m_valueTemp (Update t' c') /\
  m_value (Update t c) = m_value (Update t' c').
Proof.
  unfold same_floor. intros Ht Hc Htemp Hval.
  rewrite !Update_unfold, Ht, Hc, Htemp, Hval.
  destruct (f32_gt _ _); split; reflexivity.
Qed.

(** X3. Only the whole seconds matter: two series of updates whose times
    agree in their floors, fed to counters that agree in tally, published
    value and floor of the stored timestamp, publish the same values at the
    same calls and end with the same tally and published value. *)
Theorem subsecond_timing_is_irrelevant (ts ts' : list float32)
    (c c' : ChangePerSecond) :
  Forall2 same_floor ts ts' ->
  same_floor (m_valueTime c) (m_valueTime c') ->
  m_valueTemp c = m_valueTemp c' ->
  m_value c = m_value c' ->
  publishes ts c = publishes ts' c' /\
  m_valueTemp (UpdateMany ts c) = m_valueTemp (UpdateMany ts' c') /\
  m_value (UpdateMany ts c) = m_value (UpdateMany ts' c').
Proof.
  intros Hts. revert c c'.
  induction Hts as [|t t' ts ts' Ht _ IH]; intros c c' Hc Htemp Hval.
  - simpl. auto.
  - rewrite !UpdateMany_cons, !publishes_cons.
    destruct (Update_same_floor t t' c c' Ht Hc Htemp Hval) as [Htemp' Hval'].
    assert (Htime : same_floor (m_valueTime (Update t c)) (m_valueTime (Update t' c'))).
    { now rewrite !Update_time. }
    destruct (IH _ _ Htime Htemp' Hval') as (Hp & Hrest).
    split; [|exact Hrest].
    unfold same_floor in Ht, Hc. rewrite Ht, Hc.
    destruct (f32_gt _ _); [|exact Hp].
    now rewrite Hval', Hp.
Qed.

Lemma subsecond_timing_is_irrelevant_witness :
  m_value (UpdateMany [t_0_1; t_1_2; t_2_05] cps_zero) =
  m_value (UpdateMany [t_0_9; t_1_8; f32_of_Z 2] cps_zero).
Proof.
  apply (subsecond_timing_is_irrelevant [t_0_1; t_1_2; t_2_05]
           [t_0_9; t_1_8; f32_of_Z 2] cps_zero cps_zero);
    try reflexivity.
  repeat constructor.
Defined.

(** X4. Times that are not numbers: an update with a NaN or a negative
    infinite time never publishes, and an update that follows a NaN or a
    positive infinite time never publishes either, whatever its own time;
    so one NaN sample holds the published value for two calls. *)
Theorem non_finite_times_do_not_publish (t : float32) (c : ChangePerSecond) :
  m_value (Update F32_nan c) = m_value c /\
  m_value (Update F32_ninf c) = m_value c /\
  (m_valueTime c = F32_nan \/ m_valueTime c = F32_pinf ->
     m_value (Update t c) = m_value c) /\
  m_value (Update t (Update F32_nan c)) = m_value c /\
  m_valueTemp (Update t (Update F32_nan c)) = u32_incr (u32_incr (m_valueTemp c)).
Proof.
  assert (Hnan : forall x, f32_gt x F32_nan = false) by (intros []; reflexivity).
  assert (Hpinf : forall x, f32_gt x F32_pinf = false) by (intros []; reflexivity).
  assert (Hninf : forall x, f32_gt F32_ninf x = false) by (intros []; reflexivity).
  split; [reflexivity|].
  split; [apply Update_value_kept, Hninf|].
  split.
  - intros [H|H]; apply Update_value_kept; rewrite H; simpl; [apply Hnan|apply Hpinf].
  - rewrite (Update_unfold t). simpl. rewrite Hnan. split; reflexivity.
Qed.

Lemma non_finite_times_do_not_publish_witness :
  m_value (Update t_2_05 (mkChangePerSecond 9 4 F32_pinf)) = 4.
Proof.
  apply (proj1 (proj2 (proj2 (non_finite_times_do_not_publish t_2_05
           (mkChangePerSecond 9 4 F32_pinf))))).
  right. reflexivity.
Defined.

(** ** The call interface: what a sequence of calls leaves behind *)

(** A member that no call outside [touches] assigns is unchanged by a
    sequence of calls none of which is in [touches]. *)
Lemma exec_calls_preserves {A : Type} (proj : Engine -> A) (touches : call -> bool) :
  (forall c w, touches c = false ->
     proj (w_engine (exec_call c w)) = proj (w_engine w)) ->
  forall cs w, existsb touches cs = false ->
  proj (w_engine (exec_calls cs w)) = proj (w_engine w).
Proof.
  intros Hcall cs. induction cs as [|c cs IH]; intros w Hcs; [reflexivity|].
  simpl in Hcs. apply orb_false_iff in Hcs as [Hc Hrest].
  rewrite exec_calls_cons, IH by exact Hrest. now apply Hcall.
Qed.

Lemma existsb_never (cs : list call) : existsb (fun _ => false) cs = false.
Proof. induction cs; simpl; auto. Qed.

Lemma AddModule_engine (ty : TypeId) (stage : Stage) (inst : ModuleInst) (w : World) :
  w_engine (AddModule ty stage inst w) =
  set_modules (snd (Add ty stage inst (m_modules (w_engine w)))) (w_engine w).
Proof. unfold AddModule. destruct (Add _ _ _ _) as [[|] m']; reflexivity. Qed.

Lemma RemoveModule_engine (ty : TypeId) (w : World) :
  w_engine (RemoveModule ty w) =
  set_modules (snd (Remove ty (m_modules (w_engine w)))) (w_engine w).
Proof. unfold RemoveModule. destruct (Remove _ _) as [[inst|] m']; reflexivity. Qed.

Lemma SetGame_engine (game : option Game) (w : World) :
  w_engine (SetGame game w) = set_game game (w_engine w).
Proof. unfold SetGame. destruct (m_game (w_engine w)); reflexivity. Qed.

Lemma exec_call_running (c : call) (w : World) :
  IsRunning (w_engine (exec_call c w)) =
  IsRunning (w_engine w) && negb (is_close c).
Proof.
  destruct c; simpl;
    rewrite ?AddModule_engine, ?RemoveModule_engine, ?SetGame_engine; simpl;
    rewrite ?andb_true_r, ?andb_false_r; reflexivity.
Qed.

(** X5. After any sequence of public calls the engine is running exactly
    when it was running before and no [RequestClose] is among the calls:
    nothing else stops the loop, and nothing restarts it. *)
Theorem running_after_calls (cs : list call) (w : World) :
  IsRunning (w_engine (exec_calls cs w)) =
  IsRunning (w_engine w) && negb (existsb is_close cs).
Proof.
  revert w. induction cs as [|c cs IH]; intros w.
  - simpl. now rewrite andb_true_r.
  - rewrite exec_calls_cons, IH, exec_call_running. simpl.
    rewrite negb_orb. now rewrite andb_assoc.
Qed.

Lemma exec_call_fps (c : call) (w : World) :
  is_set_fps c = false ->
  GetFpsLimit (w_engine (exec_call c w)) = GetFpsLimit (w_engine w).
Proof.
  destruct c; simpl; try discriminate; intros _;
    rewrite ?AddModule_engine, ?RemoveModule_engine, ?SetGame_engine; reflexivity.
Qed.

Lemma exec_call_offset (c : call) (w : World) :
  is_set_offset c = false ->
  GetTimeOffset (w_engine (exec_call c w)) = GetTimeOffset (w_engine w).
Proof.
  destruct c; simpl; try discriminate; intros _;
    rewrite ?AddModule_engine, ?RemoveModule_engine, ?SetGame_engine; reflexivity.
Qed.

Lemma exec_call_game (c : call) (w : World) :
  is_set_game c = false ->
  GetGame (w_engine (exec_call c w)) = GetGame (w_engine w).
Proof.
  destruct c; simpl; try discriminate; intros _;
    rewrite ?AddModule_engine, ?RemoveModule_engine; reflexivity.
Qed.

(** X6. The last setter wins, and only setters of the same member
    compete: after [SetFpsLimit f], [SetTimeOffset t] or [SetGame g],
    the matching getter returns the value set, whatever calls came before
    and whatever calls follow, as long as none of the following ones sets
    the same member again. *)
Theorem setter_value_persists (pre post : list call) (w : World) :
  (forall f, existsb is_set_fps post = false ->
     GetFpsLimit (w_engine (exec_calls (pre ++ CSetFpsLimit f :: post) w)) = f) /\
  (forall t, existsb is_set_offset post = false ->
     GetTimeOffset (w_engine (exec_calls (pre ++ CSetTimeOffset t :: post) w)) = t) /\
  (forall g, existsb is_set_game post = false ->
     GetGame (w_engine (exec_calls (pre ++ CSetGame g :: post) w)) = g).
Proof.
  split; [|split].
  - intros f Hpost. rewrite exec_calls_app, exec_calls_cons.
    now rewrite (exec_calls_preserves GetFpsLimit is_set_fps exec_call_fps).
  - intros t Hpost. rewrite exec_calls_app, exec_calls_cons.
    now rewrite (exec_calls_preserves GetTimeOffset is_set_offset exec_call_offset).
  - intros g Hpost. rewrite exec_calls_app, exec_calls_cons.
    rewrite (exec_calls_preserves GetGame is_set_game exec_call_game) by exact Hpost.
    simpl. now rewrite SetGame_engine.
Qed.

Lemma setter_value_persists_witness :
  GetFpsLimit
    (w_engine
       (exec_calls
          ([CSetFpsLimit (f32_of_Z 30)] ++ CSetFpsLimit (f32_of_Z 60) ::
             [CRequestClose true; CSetGame None; CSetTimeOffset 2%Q])
          (fresh_world (Some 1%nat)))) = f32_of_Z 60.
Proof.
  apply (proj1 (setter_value_persists [CSetFpsLimit (f32_of_Z 30)]
           [CRequestClose true; CSetGame None; CSetTimeOffset 2%Q]
           (fresh_world (Some 1%nat)))).
  reflexivity.
Defined.

(** X7. No sequence of public calls changes what [GetArgv0], [GetDelta],
    [GetDeltaRender], [GetUps] and [GetFps] return, nor the two interval
    timers: user code can read the timing statistics but cannot write
    them. *)
Theorem calls_never_touch_timing (cs : list call) (w : World) :
  GetArgv0 (w_engine (exec_calls cs w)) = GetArgv0 (w_engine w) /\
  GetDelta (w_engine (exec_calls cs w)) = GetDelta (w_engine w) /\
  GetDeltaRender (w_engine (exec_calls cs w)) = GetDeltaRender (w_engine w) /\
  GetUps (w_engine (exec_calls cs w)) = GetUps (w_engine w) /\
  GetFps (w_engine (exec_calls cs w)) = GetFps (w_engine w) /\
  m_timerUpdate (w_engine (exec_calls cs w)) = m_timerUpdate (w_engine w) /\
  m_timerRender (w_engine (exec_calls cs w)) = m_timerRender (w_engine w).
Proof.
  assert (H : forall {A} (proj : Engine -> A),
            (forall c w, proj (w_engine (exec_call c w)) = proj (w_engine w)) ->
            proj (w_engine (exec_calls cs w)) = proj (w_engine w)).
  { intros A proj Hcall.
    apply (exec_calls_preserves proj (fun _ => false)).
    - intros c w0 _. apply Hcall.
    - apply existsb_never. }
  repeat split; apply H; intros c w0; destruct c; simpl;
    rewrite ?AddModule_engine, ?RemoveModule_engine, ?SetGame_engine; reflexivity.
Qed.

(** ** Game instances and their destruction *)

Lemma handles_app (l1 l2 : list (option Game)) :
  handles (l1 ++ l2) = handles l1 ++ handles l2.
Proof.
  induction l1 as [|[g|] l1 IH]; simpl; [reflexivity| |exact IH].
  now rewrite IH.
Qed.

Lemma destroyed_games_app (l1 l2 : list event) :
  destroyed_games (l1 ++ l2) = destroyed_games l1 ++ destroyed_games l2.
Proof.
  induction l1 as [|ev l1 IH]; [reflexivity|].
  destruct ev; simpl; rewrite IH; reflexivity.
Qed.

Lemma SetGame_log_handles (game : option Game) (w : World) :
  w_log (SetGame game w) =
  w_log w ++ map EvGameDestroyed (handles [GetGame (w_engine w)]).
Proof.
  unfold SetGame, GetGame. destruct (m_game (w_engine w)); simpl;
    [reflexivity|now rewrite app_nil_r].
Qed.

Lemma replaced_cons (held g : option Game) (gs : list (option Game)) :
  replaced held (g :: gs) = handles [held] ++ replaced g gs.
Proof. unfold replaced. destruct held; reflexivity. Qed.

Lemma last_cons {A : Type} (l : list A) (a d : A) :
  List.last (a :: l) d = List.last l a.
Proof.
  revert a d. induction l as [|b l IH]; intros a d; [reflexivity|].
  change (List.last (a :: b :: l) d) with (List.last (b :: l) d).
  rewrite IH. symmetry. apply IH.
Qed.

Lemma SetGame_chain_log (gs : list (option Game)) :
  forall w,
  w_log (exec_calls (map CSetGame gs) w) =
    w_log w ++ map EvGameDestroyed (replaced (GetGame (w_engine w)) gs) /\
  GetGame (w_engine (exec_calls (map CSetGame gs) w)) =
    List.last gs (GetGame (w_engine w)).
Proof.
  induction gs as [|g gs IH]; intros w.
  - simpl. unfold replaced. simpl. now rewrite app_nil_r.
  - simpl map. rewrite exec_calls_cons. simpl exec_call.
    destruct (IH (SetGame g w)) as [Hlog Hgame].
    rewrite Hlog, Hgame, SetGame_game, SetGame_log_handles, replaced_cons.
    rewrite map_app, app_assoc. split; [reflexivity|].
    symmetry. apply last_cons.
Qed.

Lemma handles_split_last (held : option Game) (gs : list (option Game)) :
  handles (held :: gs) = replaced held gs ++ handles [List.last gs held].
Proof.
  unfold replaced. rewrite <- handles_app. f_equal.
  assert (Hlast : List.last (held :: gs) held = List.last gs held).
  { apply last_cons. }
  rewrite <- Hlast. apply app_removelast_last. discriminate.
Qed.

(** X8. A chain of [SetGame] calls destroys exactly the instances it
    replaces, each when it is replaced and in that order, and leaves the
    engine holding the last pointer passed.  When no instance occurs twice
    among the one held at the start and the ones passed, none is destroyed
    twice and the one finally held has not been destroyed. *)
Theorem SetGame_chain_destroys_replaced (gs : list (option Game)) (w : World) :
  w_log (exec_calls (map CSetGame gs) w) =
    w_log w ++ map EvGameDestroyed (replaced (GetGame (w_engine w)) gs) /\
  GetGame (w_engine (exec_calls (map CSetGame gs) w)) =
    List.last gs (GetGame (w_engine w)) /\
  (NoDup (handles (GetGame (w_engine w) :: gs)) ->
     NoDup (replaced (GetGame (w_engine w)) gs) /\
     forall g, GetGame (w_engine (exec_calls (map CSetGame gs) w)) = Some g ->
               ~ In g (replaced (GetGame (w_engine w)) gs)).
Proof.
  destruct (SetGame_chain_log gs w) as [Hlog Hgame].
  split; [exact Hlog|]. split; [exact Hgame|].
  intros Hnodup. rewrite handles_split_last in Hnodup.
  apply NoDup_app in Hnodup as (Hrep & Hdisj & _).
  split; [exact Hrep|].
  intros g Hg Hin. rewrite Hgame in Hg.
  apply (Hdisj g); [now apply list_elem_of_In|].
  rewrite Hg. simpl. now left.
Qed.

Lemma SetGame_chain_destroys_replaced_witness :
  replaced (Some 1%nat) [Some 2%nat; None; Some 3%nat] = [1%nat; 2%nat] /\
  NoDup (replaced (Some 1%nat) [Some 2%nat; None; Some 3%nat]).
Proof.
  split; [reflexivity|].
  apply (proj2 (proj2 (SetGame_chain_destroys_replaced
           [Some 2%nat; None; Some 3%nat] (fresh_world (Some 1%nat))))).
  simpl. apply (bool_decide_unpack _). vm_compute. exact I.
Defined.

Lemma exec_calls_log_grows (cs : list call) (w : World) :
  exists evs, w_log (exec_calls cs w) = w_log w ++ evs.
Proof.
  apply (steps_log any_call), exec_calls_steps, every_call_allowed.
Qed.

(** X9. [SetGame] does not check its argument against the pointer it
    holds: passed the instance the engine already holds, it destroys that
    instance and goes on holding it, and so does the engine after any
    further calls that do not set the game again. *)
Theorem SetGame_of_held_instance_dangles (g : Game) (cs : list call) (w : World) :
  GetGame (w_engine w) = Some g ->
  existsb is_set_game cs = false ->
  GetGame (w_engine (exec_calls cs (SetGame (Some g) w))) = Some g /\
  In g (destroyed_games (w_log (exec_calls cs (SetGame (Some g) w)))).
Proof.
  intros Hheld Hcs. split.
  - rewrite (exec_calls_preserves GetGame is_set_game exec_call_game) by exact Hcs.
    apply SetGame_game.
  - destruct (exec_calls_log_grows cs (SetGame (Some g) w)) as [evs ->].
    rewrite (SetGame_log g _ _ Hheld), !destroyed_games_app.
    apply in_or_app. left. apply in_or_app. right. simpl. now left.
Qed.

Lemma SetGame_of_held_instance_dangles_witness :
  GetGame (w_engine (exec_calls [CRequestClose false]
                       (SetGame (Some 4%nat) (fresh_world (Some 4%nat))))) = Some 4%nat /\
  In 4%nat (destroyed_games (w_log (exec_calls [CRequestClose false]
                       (SetGame (Some 4%nat) (fresh_world (Some 4%nat)))))).
Proof.
  apply (SetGame_of_held_instance_dangles 4%nat [CRequestClose false]
           (fresh_world (Some 4%nat))); reflexivity.
Defined.

(** ** Hot reload: [cr_main] *)

Lemma host_SetGame_game (game : option Game) (h : Host) :
  host_game (host_SetGame game h) = game.
Proof. unfold host_game, host_SetGame. simpl. apply SetGame_game. Qed.

Lemma host_SetGame_destroyed (game : option Game) (h : Host) :
  host_destroyed (host_SetGame game h) =
  host_destroyed h ++ handles [host_game h].
Proof.
  unfold host_destroyed, host_SetGame, host_game. simpl.
  rewrite SetGame_log_handles, destroyed_games_app.
  destruct (GetGame (w_engine (h_world h))); reflexivity.
Qed.

(** X10. [cr_main(CR_LOAD)] constructs the new [MainGame] before [SetGame]
    destroys the game held.  So when a game is still held, the calls of the
    old destructor come after those of the new constructor, and the scene
    last set is [nullptr] although the engine holds the new game; when no
    game is held, as after [cr_main(CR_UNLOAD)], the scene last set is the
    new game's. *)
Theorem cr_load_constructs_before_it_destroys (version : Z) (h : Host) :
  host_game (snd (cr_main version CR_LOAD h)) = Some (h_next h) /\
  (forall old, host_game h = Some old ->
     h_ext (snd (cr_main version CR_LOAD h)) =
       h_ext h ++ [XLogOut "[Guest] Operation load: %i\n" (IntArg version)]
               ++ MainGame_ctor (h_next h) ++ MainGame_dtor old /\
     last_scene (h_ext (snd (cr_main version CR_LOAD h))) = Some None) /\
  (host_game h = None ->
     last_scene (h_ext (snd (cr_main version CR_LOAD h))) = Some (Some (h_next h))) /\
  (forall v', last_scene
       (h_ext (snd (cr_main version CR_LOAD (snd (cr_main v' CR_UNLOAD h))))) =
     Some (Some (h_next h))).
Proof.
  split; [apply host_SetGame_game|].
  split; [|split].
  - intros old Hold. unfold host_game in Hold.
    unfold cr_main, new_MainGame, host_SetGame, host_ext. simpl.
    rewrite Hold, <- !app_assoc. split; [reflexivity|].
    unfold last_scene. rewrite !fold_left_app. reflexivity.
  - intros Hnone. unfold host_game in Hnone.
    unfold cr_main, new_MainGame, host_SetGame, host_ext. simpl.
    rewrite Hnone, app_nil_r.
    unfold last_scene. rewrite !fold_left_app. reflexivity.
  - intros v'.
    unfold cr_main, new_MainGame, host_SetGame, host_ext. simpl.
    rewrite SetGame_game, app_nil_r.
    unfold last_scene. rewrite !fold_left_app. reflexivity.
Qed.

Lemma cr_load_constructs_before_it_destroys_witness :
  last_scene (h_ext (cr_run [(1, CR_LOAD); (2, CR_LOAD)] fresh_host)) = Some None /\
  host_game (cr_run [(1, CR_LOAD); (2, CR_LOAD)] fresh_host) = Some 1%nat.
Proof.
  split; [|reflexivity].
  apply (proj1 (proj2 (cr_load_constructs_before_it_destroys 2
           (cr_run [(1, CR_LOAD)] fresh_host))) 0%nat).
  reflexivity.
Defined.

Lemma cr_main_step (version : Z) (op : cr_op) (h : Host) :
  lifetimes_ok h ->
  lifetimes_ok (snd (cr_main version op h)) /\
  (h_next h <= h_next (snd (cr_main version op h)))%nat /\
  (forall g,
     In g (host_destroyed h) \/ host_game h = Some g \/
     (h_next h <= g < h_next (snd (cr_main version op h)))%nat ->
     In g (host_destroyed (snd (cr_main version op h))) \/
     host_game (snd (cr_main version op h)) = Some g).
Proof.
  intros (Hnd & Hlt & Hheld).
  assert (Hnd' : forall game h1,
            host_destroyed h1 = host_destroyed h -> host_game h1 = host_game h ->
            NoDup (host_destroyed (host_SetGame game h1))).
  { intros game h1 Hd Hg. rewrite host_SetGame_destroyed, Hd, Hg.
    destruct (host_game h) as [old|] eqn:Hold; simpl.
    - apply NoDup_app. split; [exact Hnd|]. split; [|apply NoDup_singleton].
      intros x Hx Hx'. apply list_elem_of_singleton in Hx'. subst x.
      apply (proj2 (Hheld old eq_refl)). now apply list_elem_of_In.
    - now rewrite app_nil_r. }
  assert (Hold : forall g, In g (host_destroyed h ++ handles [host_game h]) ->
                 (g < h_next h)%nat).
  { intros g Hin. apply in_app_or in Hin as [Hin|Hin]; [now apply Hlt|].
    destruct (host_game h) as [old|] eqn:Ho; simpl in Hin; [|contradiction].
    destruct Hin as [<-|[]]. apply (Hheld old eq_refl). }
  destruct op.
  - (* CR_LOAD *)
    assert (Hdes : host_destroyed (snd (cr_main version CR_LOAD h)) =
                   host_destroyed h ++ handles [host_game h]).
    { unfold cr_main, new_MainGame. simpl. now rewrite host_SetGame_destroyed. }
    assert (Hgame : host_game (snd (cr_main version CR_LOAD h)) = Some (h_next h)).
    { apply host_SetGame_game. }
    assert (Hnext : h_next (snd (cr_main version CR_LOAD h)) = S (h_next h)).
    { reflexivity. }
    rewrite Hnext.
    split; [|split].
    + split; [now apply Hnd'|]. split.
      * intros g Hin. rewrite Hdes in Hin. apply Hold in Hin. rewrite Hnext. lia.
      * intros g Hg. rewrite Hgame in Hg. injection Hg as <-.
        split; [rewrite Hnext; lia|].
        intros Hin. rewrite Hdes in Hin. apply Hold in Hin. lia.
    + lia.
    + intros g Hg. rewrite Hdes, Hgame.
      destruct Hg as [Hin|[Hg|Hg]].
      * left. apply in_or_app. now left.
      * left. apply in_or_app. right. rewrite Hg. simpl. now left.
      * right. f_equal. lia.
  - (* CR_UNLOAD *)
    assert (Hdes : host_destroyed (snd (cr_main version CR_UNLOAD h)) =
                   host_destroyed h ++ handles [host_game h]).
    { unfold cr_main. simpl. now rewrite host_SetGame_destroyed. }
    assert (Hgame : host_game (snd (cr_main version CR_UNLOAD h)) = None).
    { apply host_SetGame_game. }
    assert (Hnext : h_next (snd (cr_main version CR_UNLOAD h)) = h_next h).
    { reflexivity. }
    rewrite Hnext.
    split; [|split].
    + split; [now apply Hnd'|]. split.
      * intros g Hin. rewrite Hdes in Hin. rewrite Hnext. now apply Hold.
      * intros g Hg. rewrite Hgame in Hg. discriminate Hg.
    + lia.
    + intros g Hg. rewrite Hdes. left.
      destruct Hg as [Hin|[Hg|Hg]].
      * apply in_or_app. now left.
      * apply in_or_app. right. rewrite Hg. simpl. now left.
      * lia.
  - (* any other operation *)
    simpl. split; [exact (conj Hnd (conj Hlt Hheld))|]. split; [lia|].
    intros g [Hin|[Hg|Hg]]; [now left|now right|lia].
Qed.

Lemma cr_run_cons (v : Z) (op : cr_op) (ops : list (Z * cr_op)) (h : Host) :
  cr_run ((v, op) :: ops) h = cr_run ops (snd (cr_main v op h)).
Proof. reflexivity. Qed.

Lemma cr_run_lifetimes (ops : list (Z * cr_op)) :
  forall h, lifetimes_ok h ->
  lifetimes_ok (cr_run ops h) /\
  (h_next h <= h_next (cr_run ops h))%nat /\
  (forall g,
     In g (host_destroyed h) \/ host_game h = Some g \/
     (h_next h <= g < h_next (cr_run ops h))%nat ->
     In g (host_destroyed (cr_run ops h)) \/ host_game (cr_run ops h) = Some g).
Proof.
  induction ops as [|[v op] ops IH]; intros h Hok.
  - simpl. split; [exact Hok|]. split; [lia|].
    intros g [Hin|[Hg|Hg]]; [now left|now right|lia].
  - rewrite cr_run_cons.
    destruct (cr_main_step v op h Hok) as (Hok1 & Hle1 & Hacc1).
    destruct (IH _ Hok1) as (Hok2 & Hle2 & Hacc2).
    split; [exact Hok2|]. split; [lia|].
    intros g Hg. apply Hacc2.
    destruct (Nat.lt_ge_cases g (h_next (snd (cr_main v op h)))) as [Hlt|Hge].
    + destruct (Hacc1 g) as [H|H]; [|now left|now right; left].
      destruct Hg as [Hg|[Hg|Hg]]; [now left|now right; left|right; right; lia].
    + destruct Hg as [Hg|[Hg|Hg]].
      * destruct (Hacc1 g) as [H|H]; [now left|now left|now right; left].
      * destruct (Hacc1 g) as [H|H]; [now right; left|now left|now right; left].
      * right. right. lia.
Qed.

(** X11. Whatever series of operations the reload host issues, [cr_main]
    neither leaks nor double-frees a game: every [MainGame] it has
    constructed is either the one the engine holds or has been destroyed,
    no game is destroyed twice, and the game held is not a destroyed one.
    It returns 0 for every operation. *)
Theorem cr_main_accounts_for_every_game (ops : list (Z * cr_op)) (h : Host) :
  lifetimes_ok h ->
  lifetimes_ok (cr_run ops h) /\
  (forall g, (h_next h <= g < h_next (cr_run ops h))%nat ->
     In g (host_destroyed (cr_run ops h)) \/ host_game (cr_run ops h) = Some g) /\
  (forall v op, fst (cr_main v op (cr_run ops h)) = 0).
Proof.
  intros Hok. destruct (cr_run_lifetimes ops h Hok) as (Hok' & _ & Hacc).
  split; [exact Hok'|]. split.
  - intros g Hg. apply Hacc. now right; right.
  - intros v op. destruct op; reflexivity.
Qed.

Lemma fresh_host_lifetimes_ok : lifetimes_ok fresh_host.
Proof.
  split; [apply NoDup_nil_2|]. split.
  - intros g [].
  - intros g Hg. discriminate Hg.
Qed.

Lemma cr_main_accounts_for_every_game_witness :
  host_destroyed
    (cr_run [(1, CR_LOAD); (1, CR_OTHER); (1, CR_UNLOAD); (2, CR_LOAD); (3, CR_LOAD)]
       fresh_host) = [0%nat; 1%nat] /\
  lifetimes_ok
    (cr_run [(1, CR_LOAD); (1, CR_OTHER); (1, CR_UNLOAD); (2, CR_LOAD); (3, CR_LOAD)]
       fresh_host).
Proof.
  split; [reflexivity|].
  apply (cr_main_accounts_for_every_game
           [(1, CR_LOAD); (1, CR_OTHER); (1, CR_UNLOAD); (2, CR_LOAD); (3, CR_LOAD)]
           fresh_host).
  apply fresh_host_lifetimes_ok.
Defined.

(** ** Frame-rate cap: when the loop suspends, and for how long *)

Lemma f32_gt_zero_finite (q : Q) :
  f32_gt (F32 q) (f32_of_Z 0) = true <-> (0 < q)%Q.
Proof. unfold f32_gt, f32_of_Z. apply Qlt_bool_iff. Qed.

(** Under a finite cap above zero, an interval shorter than [1/cap] is
    filled up to [1/cap]. *)
Lemma throttle_wait_short (q : Q) (interval : Time) :
  (0 < q)%Q -> (interval < / q)%Q ->
  throttle_wait (F32 q) interval = Some (/ q - interval)%Q.
Proof.
  intros Hq Hshort. unfold throttle_wait.
  rewrite (proj2 (f32_gt_zero_finite q) Hq).
  now rewrite (proj2 (Qlt_bool_iff interval (/ q)) Hshort).
Qed.

(** An interval that is not shorter than [1/cap] is left alone. *)
Lemma throttle_wait_long (q : Q) (interval : Time) :
  (/ q <= interval)%Q -> throttle_wait (F32 q) interval = None.
Proof.
  intros Hlong. unfold throttle_wait.
  destruct (f32_gt (F32 q) (f32_of_Z 0)); [|reflexivity].
  destruct (Qlt_bool interval (/ q)) eqn:Hlt; [|reflexivity].
  apply Qlt_bool_iff in Hlt. exfalso. now apply (Qlt_not_le _ _ Hlt).
Qed.

Lemma throttle_wait_bounded (q : Q) (interval d : Time) :
  throttle_wait (F32 q) interval = Some d ->
  (0 <= interval)%Q -> (d <= / q)%Q.
Proof.
  intros Hwait Hpos.
  destruct (throttle_wait_on _ _ _ Hwait) as (_ & _ & Hfill).
  specialize (Hfill q eq_refl). rewrite <- Hfill.
  rewrite <- (Qplus_0_l d) at 1.
  apply Qplus_le_compat; [exact Hpos|apply Qle_refl].
Qed.

Lemma Throttle_short (q : Q) (w : World) :
  GetFpsLimit (w_engine w) = F32 q ->
  (0 < q)%Q -> (GetDeltaRender (w_engine w) < / q)%Q ->
  Throttle w = log_events [EvSleep (/ q - GetDeltaRender (w_engine w))%Q] w.
Proof.
  intros Hcap Hq Hshort. unfold Throttle.
  now rewrite Hcap, (throttle_wait_short q _ Hq Hshort).
Qed.

(** What the update phase leaves alone when its hooks do. *)
Section UpdatePhasePreserves.

Context {A : Type}.
Variable proj : Engine -> A.
Variable ok : call -> Prop.
Hypothesis proj_call :
  forall c w, ok c -> proj (w_engine (exec_call c w)) = proj (w_engine w).
Hypothesis proj_timer :
  forall t e, proj (set_timerUpdate t e) = proj e.

Lemma exec_calls_proj (cs : list call) :
  Forall ok cs -> forall w, proj (w_engine (exec_calls cs w)) = proj (w_engine w).
Proof.
  induction cs as [|c cs IH]; intros Hcs w; [reflexivity|].
  inversion Hcs as [|? ? Hc Hrest]; subst.
  rewrite exec_calls_cons, IH by exact Hrest. now apply proj_call.
Qed.

Lemma visit_proj (ev : TypeId -> event) (hook : TypeId -> list call)
    (tys : list TypeId) :
  (forall ty, Forall ok (hook ty)) ->
  forall w, proj (w_engine (visit ev hook tys w)) = proj (w_engine w).
Proof.
  intros Hhook. induction tys as [|ty tys IH]; intros w; [reflexivity|].
  unfold visit in *. simpl. rewrite IH.
  now rewrite exec_calls_proj by apply Hhook.
Qed.

Lemma game_update_proj (hook : Game -> list call) (w : World) :
  (forall g, Forall ok (hook g)) ->
  proj (w_engine (game_update hook w)) = proj (w_engine w).
Proof.
  intros Hhook. unfold game_update.
  destruct (m_game (w_engine w)); [|reflexivity].
  now rewrite exec_calls_proj by apply Hhook.
Qed.

Lemma update_phase_proj (now : Time) (fr : frame) (w : World) :
  (forall ty, Forall ok (fr_module_update fr ty)) ->
  (forall g, Forall ok (fr_game_update fr g)) ->
  proj (w_engine (update_phase now fr w)) = proj (w_engine w).
Proof.
  intros Hmod Hgame. unfold update_phase.
  destruct (Elapsed now (m_timerUpdate (w_engine w))) as [[|] tu].
  - rewrite game_update_proj, visit_proj by assumption. apply proj_timer.
  - apply proj_timer.
Qed.

End UpdatePhasePreserves.

Lemma throttle_inputs_kept (c : call) (w : World) :
  keeps_throttle_inputs c ->
  throttle_inputs (w_engine (exec_call c w)) = throttle_inputs (w_engine w).
Proof.
  destruct c; simpl; try contradiction; intros _;
    rewrite ?AddModule_engine, ?RemoveModule_engine, ?SetGame_engine; reflexivity.
Qed.

Lemma visit_log_grows (ev : TypeId -> event) (hook : TypeId -> list call)
    (tys : list TypeId) (w : World) :
  (forall ty w0, engine_step any_call w0 (log_events [ev ty] w0)) ->
  exists evs, w_log (visit ev hook tys w) = w_log w ++ evs.
Proof.
  intros Hev. apply (steps_log any_call), visit_steps; [exact Hev|].
  intros ty. apply every_call_allowed.
Qed.

(** In an iteration whose update hooks leave the cap and the time offset
    alone, a finite cap above zero and a render interval shorter than
    [1/cap] make the loop suspend for the rest of [1/cap]. *)
Lemma iteration_throttles (q : Q) (fr : frame) (w : World) :
  GetFpsLimit (w_engine w) = F32 q ->
  (0 < q)%Q ->
  (forall ty, Forall keeps_throttle_inputs (fr_module_update fr ty)) ->
  (forall g, Forall keeps_throttle_inputs (fr_game_update fr g)) ->
  (render_interval fr w < / q)%Q ->
  In (EvSleep (/ q - render_interval fr w)%Q) (w_log (iteration fr w)).
Proof.
  intros Hcap Hq Hmod Hgame Hshort. unfold iteration, render_phase.
  set (now_u := (fr_clock_update fr + GetTimeOffset (w_engine w))%Q).
  set (w2 := update_phase now_u fr (on_engine (begin_update now_u) w)).
  assert (Hkept : throttle_inputs (w_engine w2) = throttle_inputs (w_engine w)).
  { unfold w2.
    rewrite (update_phase_proj throttle_inputs keeps_throttle_inputs
               throttle_inputs_kept (fun _ _ => eq_refl) now_u fr _ Hmod Hgame).
    reflexivity. }
  unfold throttle_inputs in Hkept. injection Hkept as Hfps Hoff Hdelta.
  set (now_r := (fr_clock_render fr + GetTimeOffset (w_engine w2))%Q).
  set (w3 := on_engine (begin_render now_r) w2).
  assert (Hint : GetDeltaRender (w_engine w3) = render_interval fr w).
  { unfold w3, now_r, render_interval, GetDeltaRender, GetChange, GetTimeOffset.
    simpl. now rewrite Hoff, Hdelta. }
  assert (Hcap3 : GetFpsLimit (w_engine w3) = F32 q).
  { unfold w3, GetFpsLimit. simpl. now rewrite Hfps. }
  rewrite (Throttle_short q w3 Hcap3 Hq) by now rewrite Hint.
  rewrite Hint.
  destruct (visit_log_grows EvModuleRender (fr_module_render fr)
              (ForEachInStage Render
                 (m_modules (w_engine
                    (log_events [EvSleep (/ q - render_interval fr w)%Q] w3))))
              (log_events [EvSleep (/ q - render_interval fr w)%Q] w3)
              (step_module_render any_call)) as [evs ->].
  simpl. apply in_or_app. left. apply in_or_app. right. now left.
Qed.

(** C8. With a cap that is zero or negative the throttle never suspends:
    not for any measured interval, not as a step of the loop, and not
    anywhere in a run whose hooks do not set a positive cap.  A suspension
    happens only under a cap above zero, lasts a positive time, fills the
    measured interval up to [1/cap] seconds and, for an interval that is not
    negative, lasts at most [1/cap].  And a cap above zero does suspend:
    whenever the measured interval is shorter than [1/cap] the throttle
    waits for the rest of [1/cap], as a step and inside an iteration of the
    loop, and it does not wait when the interval is not shorter. *)
Theorem fps_cap_throttles_only_and_always_above_zero (cap : float32) :
  (f32_le cap (f32_of_Z 0) = true ->
     (forall interval, throttle_wait cap interval = None) /\
     (forall w, GetFpsLimit (w_engine w) = cap -> Throttle w = w) /\
     (forall script w d,
        GetFpsLimit (w_engine w) = cap ->
        Forall (frame_allowed keeps_cap_off) script ->
        In (EvSleep d) (w_log (Run_loop script w)) ->
        In (EvSleep d) (w_log w))) /\
  (forall interval d,
     throttle_wait cap interval = Some d ->
     f32_gt cap (f32_of_Z 0) = true /\ (0 < d)%Q /\
     (forall q, cap = F32 q -> (interval + d == / q)%Q) /\
     (forall q, cap = F32 q -> (0 <= interval)%Q -> (d <= / q)%Q)) /\
  (forall q, cap = F32 q -> (0 < q)%Q ->
     (forall interval, (interval < / q)%Q ->
        throttle_wait cap interval = Some (/ q - interval)%Q) /\
     (forall interval, (/ q <= interval)%Q ->
        throttle_wait cap interval = None) /\
     (forall w, GetFpsLimit (w_engine w) = cap ->
        (GetDeltaRender (w_engine w) < / q)%Q ->
        Throttle w =
          log_events [EvSleep (/ q - GetDeltaRender (w_engine w))%Q] w) /\
     (forall fr w, GetFpsLimit (w_engine w) = cap ->
        (forall ty, Forall keeps_throttle_inputs (fr_module_update fr ty)) ->
        (forall g, Forall keeps_throttle_inputs (fr_game_update fr g)) ->
        (render_interval fr w < / q)%Q ->
        In (EvSleep (/ q - render_interval fr w)%Q) (w_log (iteration fr w)))) /\
  (forall e, GetFpsLimit (SetFpsLimit cap e) = cap).
Proof.
  split; [|split; [|split; [|reflexivity]]].
  - intros Hle. apply f32_le_not_gt in Hle.
    split; [intros interval; now apply throttle_wait_off|].
    split; [intros w <-; now apply Throttle_off|].
    intros script w d Hcap Hscript Hin.
    assert (Hinv : cap_off_since w (Run_loop script w)).
    { eapply steps_cap_off; [apply Run_loop_steps, Hscript|].
      split; [now rewrite Hcap|trivial]. }
    now apply Hinv.
  - intros interval d Hwait.
    destruct (throttle_wait_on _ _ _ Hwait) as (Hgt & Hd & Hfill).
    split; [exact Hgt|]. split; [exact Hd|]. split; [exact Hfill|].
    intros q -> Hpos. now apply (throttle_wait_bounded q interval d).
  - intros q -> Hq.
    split; [intros interval; now apply throttle_wait_short|].
    split; [intros interval; now apply throttle_wait_long|].
    split; [intros w Hcap; now apply Throttle_short|].
    intros fr w Hcap. now apply iteration_throttles.
Qed.

Lemma fps_cap_throttles_only_and_always_above_zero_witness :
  throttle_wait (f32_of_Z (-1)) (1 # 1000) = None /\
  throttle_wait (f32_of_Z 0) (1 # 1000) = None /\
  throttle_wait (f32_of_Z 30) (1 # 100) = Some (/ inject_Z 30 - (1 # 100))%Q /\
  (/ inject_Z 30 - (1 # 100) <= / inject_Z 30)%Q /\
  In (EvSleep (/ inject_Z 30 - (1 # 100))%Q)
     (w_log (iteration (game_frame (1 # 100) [CRequestClose false])
               (on_engine (SetFpsLimit (f32_of_Z 30)) (fresh_world (Some 1%nat))))).
Proof.
  split; [apply (proj1 (fps_cap_throttles_only_and_always_above_zero (f32_of_Z (-1))));
          reflexivity|].
  split; [apply (proj1 (fps_cap_throttles_only_and_always_above_zero (f32_of_Z 0)));
          reflexivity|].
  pose proof (proj1 (proj2 (proj2
                (fps_cap_throttles_only_and_always_above_zero (f32_of_Z 30))))
                (inject_Z 30) eq_refl eq_refl) as (Hshort & _ & _ & Hiter).
  pose proof (Hshort (1 # 100) eq_refl) as Hwait.
  split; [exact Hwait|].
  split.
  - apply (proj2 (proj2 (proj2 (proj1 (proj2
             (fps_cap_throttles_only_and_always_above_zero (f32_of_Z 30)))
             (1 # 100) _ Hwait))) (inject_Z 30) eq_refl).
    discriminate.
  - apply (Hiter (game_frame (1 # 100) [CRequestClose false])
             (on_engine (SetFpsLimit (f32_of_Z 30)) (fresh_world (Some 1%nat)))).
    + reflexivity.
    + intros ty. constructor.
    + intros g. repeat constructor.
    + reflexivity.
Defined.
